(** * ChatView: conversation identity, live sync and the send protocol

    A shallow embedding of [src/components/messaging/ChatView.tsx].

    - [JsString]: JavaScript strings as sequences of UTF-16 code units, with
      the relational comparison used by [Array.prototype.sort], [join] and
      [String.prototype.trim].
    - [getChatId]: the conversation identifier of a pair of user ids.
    - [Firestore]: documents, write batches and their atomic commit.
    - [ChatView]: the component: its [useState] cells, the subscription
      effect, [handleSendMessage] split at its single [await], and a
      transition system whose labels are the events the component reacts to.
    - [Message], [Composer]: the bubbles, keys, submit button and error text
      the component renders.
    - [ImageWidget]: [src/components/widgets/ImageWidget.tsx], its update,
      upload and removal handlers over a storage bucket. *)

From Stdlib Require Import ZArith NArith Ascii String Lia.
From stdpp Require Import base option list strings gmap.

Local Open Scope N_scope.

(** ** JavaScript strings *)

Module JsString.

(** A string value is a finite sequence of 16-bit code units. *)
Abbreviation t := (list N) (only parsing).

(** Literals of the source that only use ASCII characters. *)
Definition js (s : string) : t :=
  List.map N_of_ascii (list_ascii_of_string s).

(** [x < y] on strings (ECMAScript IsLessThan): a proper prefix is smaller,
    otherwise the first differing code unit decides. *)
Fixpoint lt (x y : t) : bool :=
  match x, y with
  | _, [] => false
  | [], _ :: _ => true
  | c :: x', d :: y' =>
      if c <? d then true
      else if d <? c then false
      else lt x' y'
  end.

(** The default comparator of [Array.prototype.sort] (SortCompare without a
    comparefn, on string elements). *)
Definition SortCompare (x y : t) : Z :=
  if lt x y then (-1)%Z
  else if lt y x then 1%Z
  else 0%Z.

(** [sort()]: a stable sort by [SortCompare]; insertion of each element
    behind the elements that do not compare greater. *)
Fixpoint sort_insert (x : t) (sorted : list t) : list t :=
  match sorted with
  | [] => [x]
  | y :: rest =>
      if (0 <? SortCompare y x)%Z then x :: y :: rest
      else y :: sort_insert x rest
  end.

Definition sort (arr : list t) : list t :=
  fold_left (fun acc x => sort_insert x acc) arr [].

(** [join(sep)] on an array of strings. *)
Fixpoint join (sep : t) (arr : list t) : t :=
  match arr with
  | [] => []
  | [x] => x
  | x :: rest => x ++ sep ++ join sep rest
  end.

(** WhiteSpace and LineTerminator code points, the characters [trim]
    strips: TAB, VT, FF, SP, NBSP, ZWNBSP, the Space_Separator category,
    LF, CR, LS and PS. *)
Definition is_white_space (c : N) : bool :=
  (c =? 0x0009) || (c =? 0x000B) || (c =? 0x000C) || (c =? 0x0020) ||
  (c =? 0x00A0) || (c =? 0xFEFF) || (c =? 0x1680) ||
  ((0x2000 <=? c) && (c <=? 0x200A)) ||
  (c =? 0x202F) || (c =? 0x205F) || (c =? 0x3000).

Definition is_line_terminator (c : N) : bool :=
  (c =? 0x000A) || (c =? 0x000D) || (c =? 0x2028) || (c =? 0x2029).

Definition is_trimmed_char (c : N) : bool :=
  is_white_space c || is_line_terminator c.

Fixpoint trimStart (s : t) : t :=
  match s with
  | [] => []
  | c :: s' => if is_trimmed_char c then trimStart s' else s
  end.

Definition trimEnd (s : t) : t := rev (trimStart (rev s)).

Definition trim (s : t) : t := trimEnd (trimStart s).

(** [x === y] on strings. *)
Definition strict_eq (x y : t) : bool := bool_decide (x = y).

(** ToBoolean on a string: only the empty string is falsy. *)
Definition truthy (s : t) : bool :=
  match s with [] => false | _ :: _ => true end.

End JsString.

Abbreviation jsstring := (list N) (only parsing).
Abbreviation js := JsString.js.

(** ** Conversation identity *)

(** [const getChatId = (uid1, uid2) => [uid1, uid2].sort().join('_')] *)
Definition getChatId (uid1 uid2 : jsstring) : jsstring :=
  JsString.join (js "_") (JsString.sort [uid1; uid2]).

(** The separator code unit, ['_']. *)
Definition separator : N := 95.

(** ** Firestore: documents, write batches, listeners

    The component talks to Firestore through [writeBatch], [doc],
    [collection], [serverTimestamp] and [onSnapshot]. Their behaviour is
    the documented one: the writes of a batch are applied together when
    [commit()] resolves and not at all when it is rejected; [set] with
    [merge] creates the document or overwrites only the given fields; a
    listener makes no further calls once it reported an error or was
    unsubscribed. *)

Module Firestore.

(** Field values, as far as the component writes and reads them. The
    [serverTimestamp()] sentinel only occurs in data handed to a write; the
    server replaces it by its own clock when the write commits. *)
Inductive value :=
| VString (s : jsstring)
| VArray (items : list jsstring)
| VTimestamp (time : Z)
| VServerTimestamp.

(** Document data: an object from field names to values. *)
Abbreviation DocumentData := (gmap (list N) value) (only parsing).

(** A document or collection reference, by the path segments given to
    [doc] and [collection]. *)
Abbreviation path := (list (list N)) (only parsing).

(** [doc(db, 'chats', chatId)] *)
Definition chatDoc (chatId : jsstring) : path := [js "chats"; chatId].

(** [collection(db, 'chats', chatId, 'messages')] *)
Definition messagesCollection (chatId : jsstring) : path :=
  [js "chats"; chatId; js "messages"].

(** [doc(collectionRef)]: a reference to a new document of the collection
    under an automatically generated id. *)
Definition autoDoc (coll : path) (autoId : jsstring) : path :=
  coll ++ [autoId].

(** [batch.set(ref, data)] and [batch.set(ref, data, { merge: true })]. *)
Record write := Set_ { w_ref : path; w_data : DocumentData; w_merge : bool }.

(** A [WriteBatch]: the writes in the order they were added. *)
Abbreviation WriteBatch := (list write) (only parsing).

(** The documents of the database, by path. *)
Abbreviation store := (gmap (list (list N)) (gmap (list N) value)) (only parsing).

Definition resolve (now : Z) (v : value) : value :=
  match v with
  | VServerTimestamp => VTimestamp now
  | _ => v
  end.

(** One write on the server at time [now]. Without [merge] the document is
    replaced; with [merge] the given fields are written over the document,
    which is created when absent, and its other fields are kept. *)
Definition apply_write (now : Z) (w : write) (s : store) : store :=
  let data := resolve now <$> w_data w in
  if w_merge w
  then <[w_ref w := data ∪ default ∅ (s !! w_ref w)]> s
  else <[w_ref w := data]> s.

Definition apply_batch (now : Z) (b : WriteBatch) (s : store) : store :=
  foldl (fun acc w => apply_write now w acc) s b.

(** The value of [error.code] of what a rejected promise or an error
    callback carries; [None] when the thrown value has no such property. *)
Record FirestoreError := { code : option (list N) }.

(** How [batch.commit()] settles: the server applied the whole batch at its
    time [now], or the promise is rejected and nothing was written. *)
Inductive outcome :=
| Committed (now : Z)
| Rejected (error : FirestoreError).

Definition settle (o : outcome) (b : WriteBatch) (s : store) : store :=
  match o with
  | Committed now => apply_batch now b s
  | Rejected _ => s
  end.

(** A document of a query snapshot; the snapshot lists them in the order of
    the query ([orderBy('createdAt', 'asc')]). *)
Record QueryDocumentSnapshot := { id : jsstring; data : DocumentData }.

Abbreviation QuerySnapshot := (list QueryDocumentSnapshot) (only parsing).

End Firestore.

(** ** The ChatView component *)

Module ChatView.

Import JsString Firestore.

(** Modelled from the spec: the [User] type of [types.ts], which is not among
    the sources; a user with a stable unique id, and the two other fields
    the component reads for its header. *)
Record User := { uid : jsstring; displayName : jsstring; email : jsstring }.

Record ChatViewProps := { currentUser : User; chatPartner : User }.

(** An element of [messages]: the object [{ id: doc.id, ...doc.data() }]. *)
Abbreviation MessageType := (gmap (list N) value) (only parsing).

(** The six [useState] cells. *)
Record State := mkState {
  messages : list MessageType;
  newMessage : jsstring;
  isLoading : bool;
  isSending : bool;
  fetchError : option (list N);
  sendError : option (list N)
}.

(** The initial values given to [useState]. *)
Definition initialState : State :=
  {| messages := []; newMessage := []; isLoading := true;
     isSending := false; fetchError := None; sendError := None |}.

(** An invocation of [handleSendMessage] suspended at
    [await batch.commit()]: its local [textToSend] and the batch. *)
Record PendingSend := { textToSend : jsstring; batch : WriteBatch }.

(** A mounted component with what it holds outside its state cells: the
    listeners it registered that are still active (by chat id), its
    suspended sends, and the database as this client's writes leave it. *)
Record World := mkWorld {
  props : ChatViewProps;
  state : State;
  listeners : list (list N);
  pending : list PendingSend;
  db : store
}.

(** [const chatId = getChatId(currentUser.uid, chatPartner.uid)] *)
Definition chatIdOf (p : ChatViewProps) : jsstring :=
  getChatId (uid (currentUser p)) (uid (chatPartner p)).

(** Statements of the component body: state transformers, run in sequence. *)
Definition Cmd := World -> World.

Definition seq (c1 c2 : Cmd) : Cmd := fun w => c2 (c1 w).

Notation "c1 >>> c2" := (seq c1 c2) (at level 61, left associativity).

Definition withState (f : State -> State) : Cmd := fun w =>
  {| props := props w; state := f (state w); listeners := listeners w;
     pending := pending w; db := db w |}.

Definition setMessages (v : list MessageType) : Cmd :=
  withState (fun s =>
    {| messages := v; newMessage := newMessage s; isLoading := isLoading s;
       isSending := isSending s; fetchError := fetchError s;
       sendError := sendError s |}).

Definition setNewMessage (v : jsstring) : Cmd :=
  withState (fun s =>
    {| messages := messages s; newMessage := v; isLoading := isLoading s;
       isSending := isSending s; fetchError := fetchError s;
       sendError := sendError s |}).

Definition setIsLoading (v : bool) : Cmd :=
  withState (fun s =>
    {| messages := messages s; newMessage := newMessage s; isLoading := v;
       isSending := isSending s; fetchError := fetchError s;
       sendError := sendError s |}).

Definition setIsSending (v : bool) : Cmd :=
  withState (fun s =>
    {| messages := messages s; newMessage := newMessage s;
       isLoading := isLoading s; isSending := v; fetchError := fetchError s;
       sendError := sendError s |}).

Definition setFetchError (v : option jsstring) : Cmd :=
  withState (fun s =>
    {| messages := messages s; newMessage := newMessage s;
       isLoading := isLoading s; isSending := isSending s; fetchError := v;
       sendError := sendError s |}).

Definition setSendError (v : option jsstring) : Cmd :=
  withState (fun s =>
    {| messages := messages s; newMessage := newMessage s;
       isLoading := isLoading s; isSending := isSending s;
       fetchError := fetchError s; sendError := v |}).

Definition setProps (p : ChatViewProps) : Cmd := fun w =>
  {| props := p; state := state w; listeners := listeners w;
     pending := pending w; db := db w |}.

Definition setListeners (l : list jsstring) : Cmd := fun w =>
  {| props := props w; state := state w; listeners := l;
     pending := pending w; db := db w |}.

Definition setPending (l : list PendingSend) : Cmd := fun w =>
  {| props := props w; state := state w; listeners := listeners w;
     pending := l; db := db w |}.

Definition setDb (s : store) : Cmd := fun w =>
  {| props := props w; state := state w; listeners := listeners w;
     pending := pending w; db := s |}.

(** [onSnapshot(messagesQuery, ...)]: one more active listener. *)
Definition onSnapshot (chatId : jsstring) : Cmd := fun w =>
  setListeners (listeners w ++ [chatId]) w.

(** Removes one listener of [chatId], if there is one. *)
Fixpoint remove_listener (chatId : jsstring) (l : list jsstring)
  : list jsstring :=
  match l with
  | [] => []
  | c :: l' =>
      if bool_decide (c = chatId) then l'
      else c :: remove_listener chatId l'
  end.

(** [unsubscribe()] *)
Definition unsubscribe (chatId : jsstring) : Cmd := fun w =>
  setListeners (remove_listener chatId (listeners w)) w.

(** "Не удалось загрузить сообщения." (could not load the messages) *)
Definition fetchErrorText : jsstring :=
  [0x041D; 0x0435; 0x0020; 0x0443; 0x0434; 0x0430; 0x043B; 0x043E; 0x0441;
   0x044C; 0x0020; 0x0437; 0x0430; 0x0433; 0x0440; 0x0443; 0x0437; 0x0438;
   0x0442; 0x044C; 0x0020; 0x0441; 0x043E; 0x043E; 0x0431; 0x0449; 0x0435;
   0x043D; 0x0438; 0x044F; 0x002E].

(** "Ошибка прав доступа. Попробуйте обновить страницу." (access rights
    error, try to reload the page) *)
Definition sendDeniedText : jsstring :=
  [0x041E; 0x0448; 0x0438; 0x0431; 0x043A; 0x0430; 0x0020; 0x043F; 0x0440;
   0x0430; 0x0432; 0x0020; 0x0434; 0x043E; 0x0441; 0x0442; 0x0443; 0x043F;
   0x0430; 0x002E; 0x0020; 0x041F; 0x043E; 0x043F; 0x0440; 0x043E; 0x0431;
   0x0443; 0x0439; 0x0442; 0x0435; 0x0020; 0x043E; 0x0431; 0x043D; 0x043E;
   0x0432; 0x0438; 0x0442; 0x044C; 0x0020; 0x0441; 0x0442; 0x0440; 0x0430;
   0x043D; 0x0438; 0x0446; 0x0443; 0x002E].

(** "Не удалось отправить сообщение." (could not send the message) *)
Definition sendFailedText : jsstring :=
  [0x041D; 0x0435; 0x0020; 0x0443; 0x0434; 0x0430; 0x043B; 0x043E; 0x0441;
   0x044C; 0x0020; 0x043E; 0x0442; 0x043F; 0x0440; 0x0430; 0x0432; 0x0438;
   0x0442; 0x044C; 0x0020; 0x0441; 0x043E; 0x043E; 0x0431; 0x0449; 0x0435;
   0x043D; 0x0438; 0x0435; 0x002E].

(** [error.code === 'permission-denied'] *)
Definition isPermissionDenied (error : FirestoreError) : bool :=
  match code error with
  | Some c => strict_eq c (js "permission-denied")
  | None => false
  end.

(** The body of the subscription effect (lines 31-58, without the two
    callbacks). *)
Definition subscriptionEffect (chatId : jsstring) : Cmd :=
  setIsLoading true >>> setFetchError None >>> onSnapshot chatId.

(** The cleanup the effect returns: [() => unsubscribe()]. *)
Definition subscriptionCleanup (chatId : jsstring) : Cmd :=
  unsubscribe chatId.

(** The snapshot callback. In [{ id: doc.id, ...doc.data() }] the spread
    fields come last, so a field named [id] of the data wins. *)
Definition toMessage (d : QueryDocumentSnapshot) : MessageType :=
  data d ∪ {[ js "id" := VString (id d) ]}.

Definition onNext (snapshot : QuerySnapshot) : Cmd :=
  let fetchedMessages := toMessage <$> snapshot in
  setMessages fetchedMessages >>> setFetchError None >>> setIsLoading false.

(** The error callback. *)
Definition onError (error : FirestoreError) : Cmd :=
  (if isPermissionDenied error
   then setMessages [] >>> setFetchError None
   else setFetchError (Some fetchErrorText))
  >>> setIsLoading false.

(** The batch [handleSendMessage] builds (lines 80-98). *)
Definition chatData (p : ChatViewProps) (text : jsstring) : DocumentData :=
  {[ js "participants" := VArray [uid (currentUser p); uid (chatPartner p)];
     js "lastMessageText" := VString text;
     js "lastMessageTimestamp" := VServerTimestamp ]}.

Definition messageData (p : ChatViewProps) (text : jsstring) : DocumentData :=
  {[ js "senderId" := VString (uid (currentUser p));
     js "text" := VString text;
     js "createdAt" := VServerTimestamp ]}.

Definition sendBatch (p : ChatViewProps) (text autoId : jsstring)
  : WriteBatch :=
  [ {| w_ref := chatDoc (chatIdOf p);
       w_data := chatData p text; w_merge := true |};
    {| w_ref := autoDoc (messagesCollection (chatIdOf p)) autoId;
       w_data := messageData p text; w_merge := false |} ].

(** [await batch.commit()]: the invocation is suspended with its locals. *)
Definition awaitCommit (ps : PendingSend) : Cmd := fun w =>
  setPending (pending w ++ [ps]) w.

(** [handleSendMessage] up to its [await]. [newMessage], [isSending] and the
    props are those of the render the handler belongs to; [autoId] is the id
    [doc(collection(...))] generates. *)
Definition handleSendMessage (autoId : jsstring) : Cmd := fun w =>
  let s := state w in
  if strict_eq (trim (newMessage s)) (js "") || isSending s then w
  else
    let textToSend := trim (newMessage s) in
    (setIsSending true >>> setSendError None >>> setNewMessage (js "")
     >>> awaitCommit {| textToSend := textToSend;
                        batch := sendBatch (props w) textToSend autoId |}) w.

(** The rest of [handleSendMessage] once the commit has settled: nothing but
    [finally] when it resolved, [catch] and [finally] when it was rejected. *)
Definition handleSendMessage_settled (ps : PendingSend) (o : outcome) : Cmd :=
  match o with
  | Committed _ => setIsSending false
  | Rejected error =>
      setNewMessage (textToSend ps)
      >>> (if isPermissionDenied error
           then setSendError (Some sendDeniedText)
           else setSendError (Some sendFailedText))
      >>> setIsSending false
  end.

(** What the history pane shows (lines 126-153). *)
Inductive HistoryPane :=
| Spinner
| ErrorBanner (text : jsstring)
| MessageList (emptyHint : bool) (shown : list MessageType).

Definition renderMessages (s : State) : HistoryPane :=
  MessageList (bool_decide (length (messages s) = 0%nat)) (messages s).

Definition renderHistory (s : State) : HistoryPane :=
  if isLoading s then Spinner
  else match fetchError s with
       | Some text => if truthy text then ErrorBanner text else renderMessages s
       | None => renderMessages s
       end.

(** What the component reacts to. *)
Inductive event :=
| Render (p : ChatViewProps)
| Change (value : jsstring)
| Submit (autoId : jsstring)
| Settle (i : nat) (o : outcome)
| Snapshot (chatId : jsstring) (snapshot : QuerySnapshot)
| SnapshotError (chatId : jsstring) (error : FirestoreError).

(** The first render: the state cells get their initial values and the
    effect runs. *)
Definition mount (p : ChatViewProps) (db0 : store) : World :=
  subscriptionEffect (chatIdOf p)
    {| props := p; state := initialState; listeners := []; pending := [];
       db := db0 |}.

(** A render with props [p]. The effect depends on [[chatId]]: when the chat
    id differs from the one of the previous render, the previous cleanup
    runs and then the effect; otherwise neither does. *)
Definition rerender (p : ChatViewProps) : Cmd := fun w =>
  let previous := chatIdOf (props w) in
  if bool_decide (chatIdOf p = previous) then setProps p w
  else (setProps p >>> subscriptionCleanup previous
        >>> subscriptionEffect (chatIdOf p)) w.

(** The [i]-th suspended send resumes with the outcome of its commit. *)
Definition resume (i : nat) (o : outcome) : Cmd := fun w =>
  match pending w !! i with
  | None => w
  | Some ps =>
      (setPending (delete i (pending w))
       >>> setDb (settle o (batch ps) (db w))
       >>> handleSendMessage_settled ps o) w
  end.

(** One event. A listener only calls back while it is active, and Firestore
    ends a listener when it reports an error. *)
Definition step (w : World) (e : event) : World :=
  match e with
  | Render p => rerender p w
  | Change value => setNewMessage value w
  | Submit autoId => handleSendMessage autoId w
  | Settle i o => resume i o w
  | Snapshot chatId snapshot =>
      if bool_decide (chatId ∈ listeners w) then onNext snapshot w else w
  | SnapshotError chatId error =>
      if bool_decide (chatId ∈ listeners w)
      then (unsubscribe chatId >>> onError error) w
      else w
  end.

Definition run (w : World) (events : list event) : World :=
  foldl step w events.

(** The worlds a mounted component can be in. *)
Definition reachable (w : World) : Prop :=
  exists p db0 events, w = run (mount p db0) events.

(** A send the guard of [handleSendMessage] lets through. *)
Definition accepted (w : World) : Prop :=
  trim (newMessage (state w)) <> [] /\ isSending (state w) = false.

(** Events other than the settling of a commit. *)
Definition isSettle (e : event) : bool :=
  match e with Settle _ _ => true | _ => false end.

(** Events that come from the message-log subscription. *)
Definition fromSubscription (e : event) : bool :=
  match e with Snapshot _ _ | SnapshotError _ _ => true | _ => false end.

(** The draft after the events [events], when only [onChange] writes it:
    the last typed value, or [draft] when nothing was typed. *)
Definition lastTyped (draft : jsstring) (events : list event) : jsstring :=
  foldl (fun d e => match e with Change value => value | _ => d end)
        draft events.


(** What holds of every reachable world: the suspended sends are none while
    [isSending] is false and exactly one, with [sendError] cleared, while it
    is true; and the only listener that can be active is the one of the
    current chat id. *)
Record Inv (w : World) : Prop := {
  inv_idle : isSending (state w) = false -> pending w = [];
  inv_busy : isSending (state w) = true ->
             (exists ps, pending w = [ps]) /\ sendError (state w) = None;
  inv_listeners :
    listeners w = [] \/ listeners w = [chatIdOf (props w)]
}.

End ChatView.

(** ** Sample data for the worked scenarios *)

Module Scenario.

Import Firestore ChatView.

Definition user (name : string) : User :=
  {| uid := js name; displayName := js name; email := js name |}.

(** "u1" chatting with "u2", and with "u3". *)
Definition u1_u2 : ChatViewProps :=
  {| currentUser := user "u1"; chatPartner := user "u2" |}.

Definition u1_u3 : ChatViewProps :=
  {| currentUser := user "u1"; chatPartner := user "u3" |}.

(** A stored message "hello" of "u2". *)
Definition hello : QueryDocumentSnapshot :=
  {| id := js "m0";
     data := {[ js "senderId" := VString (js "u2");
                js "text" := VString (js "hello");
                js "createdAt" := VTimestamp 1 ]} |}.

Definition denied : FirestoreError :=
  {| code := Some (js "permission-denied") |}.

Definition unavailable : FirestoreError :=
  {| code := Some (js "unavailable") |}.

(** Freshly mounted on the conversation of "u1" and "u2". *)
Definition fresh : World := mount u1_u2 ∅.

(** The draft " hi " typed into the fresh component. *)
Definition typed : World := run fresh [Change (js " hi ")].

(** The first snapshot, with the one stored message, has arrived. *)
Definition loaded : World := run fresh [Snapshot (js "u1_u2") [hello]].

(** A send of " hi " failed for lack of permission; the draft is back. *)
Definition after_failure : World :=
  run typed [Submit (js "m1"); Settle 0 (Rejected denied)].

End Scenario.

(** ** The Message component

    [Message.tsx]: one bubble of the history, aligned and coloured by
    whether the message is the viewer's own. *)

Module Message.

Import Firestore.

Record MessageProps := {
  message : gmap (list N) value;
  isOwnMessage : bool
}.

(** What is rendered: the class of the outer [motion.div], the class of the
    bubble, and the child of the paragraph, [message.text]. *)
Record Bubble := {
  className : jsstring;
  bubbleClassName : jsstring;
  children : option value
}.

Definition alignment (own : bool) : jsstring :=
  if own then js "items-end" else js "items-start".

Definition bubbleStyles (own : bool) : jsstring :=
  if own then js "bg-accent text-accent-text rounded-br-lg"
  else js "bg-white/10 text-text-light rounded-bl-lg".

Definition Message (props : MessageProps) : Bubble :=
  {| className :=
       js "w-full flex flex-col " ++ alignment (isOwnMessage props);
     bubbleClassName :=
       js "px-4 py-2 rounded-2xl max-w-xs md:max-w-md break-words "
       ++ bubbleStyles (isOwnMessage props);
     children := message props !! js "text" |}.

End Message.

(** ** What ChatView renders besides the history pane *)

Module Composer.

Import JsString Firestore ChatView.

(** [msg.senderId === currentUser.uid]: strict equality with a string holds
    for an equal string only, not for a missing field or another value. *)
Definition isOwn (p : ChatViewProps) (msg : gmap (list N) value) : bool :=
  match msg !! js "senderId" with
  | Some (VString sender) => strict_eq sender (uid (currentUser p))
  | _ => false
  end.

(** [messages.map((msg) => <Message key={msg.id} ... />)]: the key and the
    bubble of every message, in the order of [messages]. *)
Definition messageElement (p : ChatViewProps) (msg : gmap (list N) value)
  : option value * Message.Bubble :=
  (msg !! js "id",
   Message.Message
     {| Message.message := msg; Message.isOwnMessage := isOwn p msg |}).


(** [disabled={isSending || !newMessage.trim()}] of the submit button. *)
Definition submitDisabled (s : State) : bool :=
  isSending s || negb (truthy (trim (newMessage s))).

(** [{sendError && (<motion.p>...{sendError}</motion.p>)}]: the text under
    the composer, when there is one. *)
Definition sendErrorBanner (s : State) : option jsstring :=
  match sendError s with
  | Some text => if truthy text then Some text else None
  | None => None
  end.

(** The props of the other participant's component on the same pair. *)
Definition swapped (p : ChatViewProps) : ChatViewProps :=
  {| currentUser := chatPartner p; chatPartner := currentUser p |}.

(** Events that come from a render of the parent. *)
Definition isRender (e : event) : bool :=
  match e with Render _ => true | _ => false end.

(** Events of the composer: typing, submitting, and the settling of a
    commit. *)
Definition fromComposer (e : event) : bool :=
  match e with Change _ | Submit _ | Settle _ _ => true | _ => false end.

(** The settling of a commit that succeeded. *)
Definition isCommitted (e : event) : bool :=
  match e with Settle _ (Committed _) => true | _ => false end.

(** The three fields of the conversation document a send writes. *)
Definition chatFields : list jsstring :=
  [js "participants"; js "lastMessageText"; js "lastMessageTimestamp"].

(** A string that [trim] would leave as it is and that is not empty: it
    starts and ends with a character that is not white space. *)
Definition trimmedText (s : jsstring) : Prop :=
  (exists c r, s = c :: r /\ is_trimmed_char c = false) /\
  (exists r d, s = r ++ [d] /\ is_trimmed_char d = false).

(** A suspended send as [handleSendMessage] makes them: its text is
    trimmed and not empty, and its batch is the one built from that text. *)
Definition wellFormedSend (ps : PendingSend) : Prop :=
  trimmedText (textToSend ps) /\
  exists p autoId, batch ps = sendBatch p (textToSend ps) autoId.

(** The error cells hold nothing but the texts of the source. *)
Definition knownErrorTexts (s : State) : Prop :=
  (fetchError s = None \/ fetchError s = Some fetchErrorText) /\
  (sendError s = None \/ sendError s = Some sendDeniedText \/
   sendError s = Some sendFailedText).

(** A render that keeps the chat id [chatId], or any other event. *)
Definition keepsChat (chatId : jsstring) (e : event) : Prop :=
  match e with
  | Render p => chatIdOf p = chatId
  | _ => True
  end.

End Composer.

(** ** The ImageWidget component

    [ImageWidget.tsx]: shows the image of a widget and lets an editor
    replace or remove it. The image data belongs to the parent, which hands
    it down with [updateData]; the files live in a storage bucket. The
    storage calls ([deleteObject], [uploadBytes], [getDownloadURL]) succeed
    or fail as the service decides: their outcomes are inputs here. *)

Module ImageWidget.

Import JsString.

(** Values of the fields of the image data: strings and [null]; a field
    that is [undefined] is absent. *)
Inductive jsval :=
| JNull
| JString (s : jsstring).

(** The image data and the partial updates: objects. *)
Abbreviation ImageData := (gmap (list N) jsval) (only parsing).

(** ToBoolean of a field read: [undefined], [null] and [''] are falsy. *)
Definition truthyField (v : option jsval) : bool :=
  match v with
  | Some (JString s) => truthy s
  | _ => false
  end.

Record File := { name : jsstring; content : list N }.

(** The storage bucket: the stored files by path. *)
Abbreviation bucket := (gmap (list N) File) (only parsing).

Record ImageWidgetProps := {
  data : ImageData;
  isEditable : bool
}.

(** The component with what its handlers act on: the [isUploading] cell,
    the calls made to [updateData] so far (oldest first), the bucket, and
    how often the file input was cleared and clicked. *)
Record World := {
  isUploading : bool;
  updateCalls : list (gmap (list N) jsval);
  storage : bucket;
  inputCleared : nat;
  inputClicks : nat
}.

Definition Cmd := World -> World.

Definition seq (c1 c2 : Cmd) : Cmd := fun w => c2 (c1 w).

#[local] Notation "c1 >>> c2" := (seq c1 c2)
  (at level 61, left associativity).

Definition skip : Cmd := fun w => w.

Definition setIsUploading (v : bool) : Cmd := fun w =>
  {| isUploading := v; updateCalls := updateCalls w; storage := storage w;
     inputCleared := inputCleared w; inputClicks := inputClicks w |}.

Definition updateData (newData : ImageData) : Cmd := fun w =>
  {| isUploading := isUploading w;
     updateCalls := updateCalls w ++ [newData]; storage := storage w;
     inputCleared := inputCleared w; inputClicks := inputClicks w |}.

Definition setStorage (b : bucket) : Cmd := fun w =>
  {| isUploading := isUploading w; updateCalls := updateCalls w;
     storage := b; inputCleared := inputCleared w;
     inputClicks := inputClicks w |}.

(** [event.target.value = ''] *)
Definition clearInput : Cmd := fun w =>
  {| isUploading := isUploading w; updateCalls := updateCalls w;
     storage := storage w; inputCleared := S (inputCleared w);
     inputClicks := inputClicks w |}.

(** [fileInputRef.current?.click()] *)
Definition clickInput : Cmd := fun w =>
  {| isUploading := isUploading w; updateCalls := updateCalls w;
     storage := storage w; inputCleared := inputCleared w;
     inputClicks := S (inputClicks w) |}.

(** [deleteObject(ref(storage, path))] when it succeeds, and
    [uploadBytes(ref(storage, path), file)] when it succeeds. *)
Definition deleteObject (path : jsstring) : Cmd := fun w =>
  setStorage (delete path (storage w)) w.

Definition uploadBytes (path : jsstring) (file : File) : Cmd := fun w =>
  setStorage (<[path := file]> (storage w)) w.

(** [handleUpdate]: the updates are spread over the data; when they set
    [src] to [null] the [storagePath] is deleted from the result. *)
Definition mergedData (d updates : ImageData) : ImageData :=
  let newData := updates ∪ d in
  match updates !! js "src" with
  | Some JNull => delete (js "storagePath") newData
  | _ => newData
  end.

Definition handleUpdate (p : ImageWidgetProps) (updates : ImageData) : Cmd :=
  updateData (mergedData (data p) updates).

(** How the storage calls of one invocation of a handler end. *)
Record Outcomes := {
  deleteOk : bool;
  uploadOk : bool;
  downloadURL : option (list N)
}.

(** [`images/${uuidv4()}-${file.name}`] *)
Definition newStoragePath (uuid : jsstring) (file : File) : jsstring :=
  js "images/" ++ uuid ++ js "-" ++ name file.

(** The part of [handleFileChange] up to its first [await], when a file was
    chosen and the widget is editable. *)
Definition uploadStarted : Cmd := setIsUploading true.

(** The rest of that branch: the old image is deleted first, a failure of
    which is only logged; then the upload, the download URL and the update,
    any failure of which is only logged; [finally] the flag is cleared. *)
Definition uploadRest (p : ImageWidgetProps) (file : File) (uuid : jsstring)
  (o : Outcomes) : Cmd :=
  (match data p !! js "storagePath" with
   | Some (JString old) =>
       if truthy old && deleteOk o then deleteObject old else skip
   | _ => skip
   end)
  >>> (if uploadOk o
       then uploadBytes (newStoragePath uuid file) file
            >>> match downloadURL o with
                | Some url =>
                    handleUpdate p
                      {[ js "src" := JString url;
                         js "storagePath" :=
                           JString (newStoragePath uuid file) ]}
                | None => skip
                end
       else skip)
  >>> setIsUploading false.

(** [handleFileChange]; [file] is [event.target.files?.[0]]. *)
Definition handleFileChange (p : ImageWidgetProps) (file : option File)
  (uuid : jsstring) (o : Outcomes) : Cmd :=
  (match file with
   | Some f =>
       if isEditable p then uploadStarted >>> uploadRest p f uuid o
       else skip
   | None => skip
   end)
  >>> clearInput.

(** [triggerFileInput] *)
Definition triggerFileInput (p : ImageWidgetProps) : Cmd :=
  if isEditable p then clickInput else skip.

(** [removeImage]: without a storage path the data is updated at once;
    otherwise the file is deleted first, and the data is updated only when
    that succeeded. *)
Definition removeImage (p : ImageWidgetProps) (o : Outcomes) : Cmd :=
  if negb (truthyField (data p !! js "storagePath"))
  then handleUpdate p {[ js "src" := JNull ]}
  else
    match data p !! js "storagePath" with
    | Some (JString path) =>
        if deleteOk o
        then deleteObject path >>> handleUpdate p {[ js "src" := JNull ]}
        else skip
    | _ => skip
    end.

(** What the widget shows (lines 84-119): the spinner, the image with or
    without its remove button, or the upload button. *)
Inductive Pane :=
| Uploading
| Image (src : option jsval) (alt : option jsval) (removeButton : bool)
| UploadButton (disabled : bool).

Definition render (p : ImageWidgetProps) (uploading : bool) : Pane :=
  if uploading then Uploading
  else if truthyField (data p !! js "src")
       then Image (data p !! js "src") (data p !! js "title") (isEditable p)
       else UploadButton (negb (isEditable p)).

(** [disabled={!isEditable || isUploading}] of the file input. *)
Definition inputDisabled (p : ImageWidgetProps) (uploading : bool) : bool :=
  negb (isEditable p) || uploading.

End ImageWidget.

(** ** Sample data for the image widget *)

Module ImageScenario.

Import ImageWidget.

(** A widget titled "Cat" whose image is stored under "images/old". *)
Definition cat : gmap (list N) jsval :=
  {[ js "title" := JString (js "Cat");
     js "src" := JString (js "https://cdn/old");
     js "storagePath" := JString (js "images/old") ]}.

Definition oldFile : File := {| name := js "old.png"; content := [1; 2] |}.

Definition newFile : File := {| name := js "new.png"; content := [3] |}.

Definition editable : ImageWidgetProps :=
  {| data := cat; isEditable := true |}.

Definition readOnly : ImageWidgetProps :=
  {| data := cat; isEditable := false |}.

(** Nothing uploading, no update made yet, the old file in the bucket. *)
Definition idle : World :=
  {| isUploading := false; updateCalls := [];
     storage := {[ js "images/old" := oldFile ]};
     inputCleared := 0; inputClicks := 0 |}.

Definition allFine : Outcomes :=
  {| deleteOk := true; uploadOk := true;
     downloadURL := Some (js "https://cdn/new") |}.

Definition uploadFails : Outcomes :=
  {| deleteOk := true; uploadOk := false; downloadURL := None |}.

Definition deleteFails : Outcomes :=
  {| deleteOk := false; uploadOk := true;
     downloadURL := Some (js "https://cdn/new") |}.

End ImageScenario.

Section JsStringFacts.

Import JsString.

Lemma lt_asym (x y : jsstring) : lt x y = true -> lt y x = false.
Proof.
  revert y; induction x as [|c x IH]; intros [|d y]; simpl; try congruence.
  destruct (N.ltb_spec c d) as [Hcd|Hcd].
  - intros _. destruct (N.ltb_spec d c); [lia|reflexivity].
  - destruct (N.ltb_spec d c); [congruence|]. apply IH.
Qed.

Lemma lt_total (x y : jsstring) :
  lt x y = false -> lt y x = false -> x = y.
Proof.
  revert y; induction x as [|c x IH]; intros [|d y]; simpl; try congruence.
  destruct (N.ltb_spec c d) as [Hcd|Hcd]; [congruence|].
  destruct (N.ltb_spec d c) as [Hdc|Hdc]; [congruence|].
  intros Hxy Hyx. assert (c = d) by lia. subst d.
  f_equal. now apply IH.
Qed.

(** A string is never smaller than one of its prefixes. *)
Lemma lt_extension (x r : jsstring) : lt (x ++ r) x = false.
Proof.
  induction x as [|c x IH]; simpl.
  - now destruct r.
  - now rewrite N.ltb_irrefl.
Qed.

(** The two-element sort followed by the join, as a case split on the
    single comparison it performs. *)
Lemma getChatId_cases (a b : jsstring) :
  getChatId a b =
    if lt b a then b ++ separator :: a else a ++ separator :: b.
Proof.
  unfold getChatId, sort; simpl. unfold SortCompare.
  destruct (lt a b) eqn:Hab; simpl.
  - now rewrite (lt_asym _ _ Hab).
  - destruct (lt b a); reflexivity.
Qed.

(** If [a] has no separator and [a_b] reads [c_a'], then [a] starts [c]. *)
Lemma separator_free_prefix (a b c a' : jsstring) :
  separator ∉ a ->
  a ++ separator :: b = c ++ separator :: a' ->
  exists r, c = a ++ r.
Proof.
  revert c; induction a as [|x a IH]; intros c Hfree Heq.
  - now exists c.
  - destruct c as [|y c]; simpl in Heq.
    + injection Heq as Hx _. exfalso. apply Hfree. subst x. left.
    + injection Heq as Hx Heq. subst y.
      destruct (IH c) as [r Hr]; [|assumption|].
      * intros Hin. apply Hfree. now right.
      * exists r. now rewrite Hr.
Qed.

End JsStringFacts.

(** C6. [getChatId] (the spec's deriveId) is symmetric: swapping the two
    participant identifiers gives the same conversation id, for all strings;
    and on ["u1"], ["u2"] both orders give ["u1_u2"]. *)
Theorem getChatId_symmetric :
  (forall a b : jsstring, getChatId a b = getChatId b a) /\
  getChatId (js "u1") (js "u2") = js "u1_u2" /\
  getChatId (js "u2") (js "u1") = js "u1_u2".
Proof.
  split; [|split; reflexivity].
  intros a b. rewrite !getChatId_cases.
  destruct (JsString.lt b a) eqn:Hba.
  - now rewrite (lt_asym _ _ Hba).
  - destruct (JsString.lt a b) eqn:Hab; [reflexivity|].
    now rewrite (lt_total _ _ Hab Hba).
Qed.

(** C7, as stated, fails: with a = "a_b_a" the distinct partners "b_a" and
    "a_b" (all three non-empty and pairwise distinct) get the same
    conversation id "a_b_a_b_a". *)
Lemma getChatId_partner_collision :
  js "b_a" <> js "a_b" /\
  js "a_b_a" <> js "b_a" /\ js "a_b_a" <> js "a_b" /\
  getChatId (js "a_b_a") (js "b_a") = getChatId (js "a_b_a") (js "a_b").
Proof. repeat split; try discriminate. Qed.

(** C7, amended. When the identifier [a] does not contain the separator
    character ['_'], distinct partners [b] and [c] of [a] never get the same
    conversation id. *)
Theorem getChatId_injective_partner (a b c : jsstring) :
  separator ∉ a -> b <> c -> getChatId a b <> getChatId a c.
Proof.
  intros Hfree Hbc. rewrite !getChatId_cases.
  destruct (JsString.lt b a) eqn:Hba, (JsString.lt c a) eqn:Hca; intros Heq.
  - apply Hbc. eapply app_inv_tail. exact Heq.
  - symmetry in Heq.
    destruct (separator_free_prefix _ _ _ _ Hfree Heq) as [r ->].
    rewrite lt_extension in Hba. discriminate.
  - destruct (separator_free_prefix _ _ _ _ Hfree Heq) as [r ->].
    rewrite lt_extension in Hca. discriminate.
  - apply Hbc. apply app_inv_head in Heq. now injection Heq.
Qed.

Lemma getChatId_injective_partner_witness :
  (separator ∉ js "u1") /\ js "u2" <> js "u3" /\
  getChatId (js "u1") (js "u2") <> getChatId (js "u1") (js "u3").
Proof.
  assert (Hfree : (separator ∉ js "u1")).
  { apply (bool_decide_unpack (separator ∉ js "u1")). vm_compute. exact I. }
  assert (Hne : js "u2" <> js "u3") by discriminate.
  split; [exact Hfree|split; [exact Hne|]].
  apply (getChatId_injective_partner (js "u1") (js "u2") (js "u3") Hfree Hne).
Defined.

(** X26. An identifier never collides on two distinct partners at least
    as long as itself: identifiers of one length, as generated user ids
    are, get distinct conversation ids whatever characters they are made
    of, the separator included. *)
Lemma getChatId_injective_partner_by_length (a b c : jsstring) :
  (length a <= length b)%nat -> b <> c -> getChatId a b <> getChatId a c.
Proof.
  intros Hlen Hbc. rewrite !getChatId_cases.
  destruct (JsString.lt b a) eqn:Hba, (JsString.lt c a) eqn:Hca; intros Heq.
  - apply Hbc. eapply app_inv_tail. exact Heq.
  - assert (Hsize : length b = length c).
    { apply (f_equal length) in Heq.
      rewrite !length_app in Heq. simpl in Heq. lia. }
    symmetry in Heq. apply app_eq_inv in Heq as [(k & Ha & _)|(k & Hb & _)].
    + assert (k = []) as ->.
      { apply (f_equal length) in Ha. rewrite length_app in Ha.
        destruct k; [reflexivity|simpl in Ha; lia]. }
      rewrite app_nil_r in Ha. subst a.
      rewrite lt_asym in Hba by exact Hba. discriminate.
    + subst b. rewrite lt_extension in Hba. discriminate.
  - assert (Hsize : length b = length c).
    { apply (f_equal length) in Heq.
      rewrite !length_app in Heq. simpl in Heq. lia. }
    apply app_eq_inv in Heq as [(k & Ha & _)|(k & Hc & _)].
    + assert (k = []) as ->.
      { apply (f_equal length) in Ha. rewrite length_app in Ha.
        destruct k; [reflexivity|simpl in Ha; lia]. }
      rewrite app_nil_r in Ha. subst a.
      rewrite lt_asym in Hca by exact Hca. discriminate.
    + subst c. rewrite lt_extension in Hca. discriminate.
  - apply Hbc. apply app_inv_head in Heq. now injection Heq.
Qed.

Lemma getChatId_injective_partner_by_length_witness :
  (length (js "a_b") <= length (js "b_a"))%nat /\
  js "b_a" <> js "a_c" /\
  getChatId (js "a_b") (js "b_a") <> getChatId (js "a_b") (js "a_c").
Proof.
  assert (Hlen : (length (js "a_b") <= length (js "b_a"))%nat)
    by (simpl; lia).
  assert (Hne : js "b_a" <> js "a_c") by discriminate.
  split; [exact Hlen|]. split; [exact Hne|].
  exact (getChatId_injective_partner_by_length (js "a_b") (js "b_a")
           (js "a_c") Hlen Hne).
Defined.

(** ** The component: basic facts *)

Import JsString Firestore ChatView.

Ltac unfold_cmds :=
  unfold subscriptionEffect, subscriptionCleanup, onNext, onError,
    handleSendMessage_settled, awaitCommit, onSnapshot, unsubscribe, seq,
    setMessages, setNewMessage, setIsLoading, setIsSending, setFetchError,
    setSendError, setProps, setListeners, setPending, setDb, withState in *.

Ltac run_cmds := unfold_cmds; simpl in *.

Section Guard.

Variables (w : World) (autoId : jsstring).

(** The guard of [handleSendMessage], on an accepted send and otherwise. *)
Lemma handleSendMessage_accepted :
  accepted w ->
  handleSendMessage autoId w =
    (setIsSending true >>> setSendError None >>> setNewMessage (js "")
     >>> awaitCommit
           {| textToSend := trim (newMessage (state w));
              batch := sendBatch (props w) (trim (newMessage (state w)))
                         autoId |}) w.
Proof.
  intros [Htext Hidle]. unfold handleSendMessage, strict_eq.
  rewrite Hidle, orb_false_r.
  case_bool_decide as Hempty; [|reflexivity].
  now destruct Htext.
Qed.

Lemma handleSendMessage_ignored :
  trim (newMessage (state w)) = [] \/ isSending (state w) = true ->
  handleSendMessage autoId w = w.
Proof.
  intros [Hempty|Hbusy]; unfold handleSendMessage, strict_eq.
  - rewrite Hempty. now rewrite bool_decide_eq_true_2.
  - rewrite Hbusy. now rewrite orb_true_r.
Qed.

End Guard.

Section Invariant.

Lemma mount_inv (p : ChatViewProps) (db0 : store) : Inv (mount p db0).
Proof.
  split; unfold mount; run_cmds; try congruence.
  now right.
Qed.

Lemma remove_listener_single (c : jsstring) : remove_listener c [c] = [].
Proof. simpl. now rewrite bool_decide_eq_true_2. Qed.

Lemma step_inv (w : World) (e : event) : Inv w -> Inv (step w e).
Proof.
  intros [Hidle Hbusy Hlis].
  destruct e as [p|value|autoId|i o|c snapshot|c error]; simpl.
  - (* Render *)
    unfold rerender. case_bool_decide as Hsame.
    + split; run_cmds; try assumption. now rewrite Hsame.
    + split; run_cmds; try assumption.
      right. destruct Hlis as [->| ->]; [reflexivity|].
      now rewrite remove_listener_single.
  - (* Change *)
    split; run_cmds; assumption.
  - (* Submit *)
    unfold handleSendMessage.
    destruct (strict_eq _ _ || isSending (state w)) eqn:Hguard.
    + now split.
    + apply orb_false_elim in Hguard as [_ Hnot].
      split; run_cmds; try assumption; try congruence.
      intros _. rewrite (Hidle Hnot). split; [eexists|]; reflexivity.
  - (* Settle *)
    unfold resume. destruct (pending w !! i) as [ps|] eqn:Hps.
    + destruct (isSending (state w)) eqn:Hs.
      * destruct (Hbusy eq_refl) as [[ps' Hone] _].
        rewrite Hone in Hps |- *.
        destruct i as [|i]; [|now destruct i].
        split; destruct o; run_cmds; try assumption; try congruence;
          try (destruct (isPermissionDenied error); simpl; congruence).
        all: try (destruct (isPermissionDenied error); simpl; assumption).
      * rewrite (Hidle eq_refl) in Hps. discriminate.
    + now split.
  - (* Snapshot *)
    case_bool_decide; [|now split].
    split; run_cmds; assumption.
  - (* SnapshotError *)
    case_bool_decide as Hin; [|now split].
    split; run_cmds.
    + destruct (isPermissionDenied error); simpl; assumption.
    + destruct (isPermissionDenied error); simpl; assumption.
    + destruct (isPermissionDenied error); simpl;
        (left; destruct Hlis as [Hl|Hl]; rewrite Hl in Hin |- *;
         [reflexivity|]; apply list_elem_of_singleton in Hin; subst c;
         apply remove_listener_single).
Qed.

Lemma run_inv (events : list event) (w : World) : Inv w -> Inv (run w events).
Proof.
  revert w; induction events as [|e events IH]; intros w Hw; simpl.
  - assumption.
  - apply IH. now apply step_inv.
Qed.

Lemma reachable_inv (w : World) : reachable w -> Inv w.
Proof.
  intros (p & db0 & events & ->). apply run_inv, mount_inv.
Qed.

End Invariant.

Section InFlight.

(** While a send is in flight, an event other than the settling of its
    commit leaves the send alone: a further submit is ignored, and only
    [onChange] writes the draft. *)
Lemma quiet_step (w : World) (e : event) :
  isSending (state w) = true -> isSettle e = false ->
  isSending (state (step w e)) = true /\
  pending (step w e) = pending w /\
  sendError (state (step w e)) = sendError (state w) /\
  db (step w e) = db w /\
  newMessage (state (step w e)) = lastTyped (newMessage (state w)) [e].
Proof.
  intros Hbusy Hquiet.
  destruct e as [p|value|autoId|i o|c snapshot|c error]; simpl in *;
    try discriminate.
  - unfold rerender. case_bool_decide; run_cmds; auto.
  - run_cmds; auto.
  - rewrite handleSendMessage_ignored by now right. auto.
  - case_bool_decide; run_cmds; auto.
  - case_bool_decide; run_cmds; auto.
    destruct (isPermissionDenied error); simpl; auto.
Qed.

Lemma quiet_run (interim : list event) (w : World) :
  isSending (state w) = true ->
  Forall (fun e => isSettle e = false) interim ->
  isSending (state (run w interim)) = true /\
  pending (run w interim) = pending w /\
  sendError (state (run w interim)) = sendError (state w) /\
  db (run w interim) = db w /\
  newMessage (state (run w interim)) = lastTyped (newMessage (state w)) interim.
Proof.
  revert w; induction interim as [|e interim IH]; intros w Hbusy Hquiet.
  - simpl. auto.
  - inversion Hquiet as [|? ? He Hrest]; subst.
    destruct (quiet_step w e Hbusy He) as (Hb & Hp & Hs & Hd & Hn).
    destruct (IH (step w e) Hb Hrest) as (Hb' & Hp' & Hs' & Hd' & Hn').
    simpl. rewrite Hb', Hp', Hs', Hd', Hn', Hp, Hs, Hd, Hn.
    auto.
Qed.

(** An accepted send from a reachable world, followed by such events: the
    one suspended invocation is that send. *)
Lemma in_flight (w : World) (autoId : jsstring) (interim : list event) :
  reachable w -> accepted w ->
  Forall (fun e => isSettle e = false) interim ->
  let w1 := step w (Submit autoId) in
  let w2 := run w1 interim in
  newMessage (state w1) = [] /\
  messages (state w1) = messages (state w) /\
  db w2 = db w /\
  isSending (state w2) = true /\
  sendError (state w2) = None /\
  newMessage (state w2) = lastTyped [] interim /\
  pending w2 =
    [{| textToSend := trim (newMessage (state w));
        batch := sendBatch (props w) (trim (newMessage (state w))) autoId |}].
Proof.
  intros Hreach Hacc Hquiet w1 w2.
  pose proof (reachable_inv w Hreach) as [Hidle _ _].
  assert (Hw1 : w1 =
    (setIsSending true >>> setSendError None >>> setNewMessage (js "")
     >>> awaitCommit
           {| textToSend := trim (newMessage (state w));
              batch := sendBatch (props w) (trim (newMessage (state w)))
                         autoId |}) w)
    by (apply handleSendMessage_accepted; assumption).
  assert (Hbusy : isSending (state w1) = true) by (rewrite Hw1; reflexivity).
  destruct (quiet_run interim w1 Hbusy Hquiet) as (Hb & Hp & Hs & Hd & Hn).
  subst w2. rewrite Hb, Hp, Hs, Hd, Hn, Hw1. run_cmds.
  destruct Hacc as [_ Hnot]. rewrite (Hidle Hnot). auto 10.
Qed.

(** The settling of the one suspended send. *)
Lemma step_Settle_single (w : World) (ps : PendingSend) (o : outcome) :
  pending w = [ps] ->
  step w (Settle 0 o) =
    (setPending [] >>> setDb (settle o (batch ps) (db w))
     >>> handleSendMessage_settled ps o) w.
Proof.
  intros Hone. unfold step, resume. rewrite Hone. reflexivity.
Qed.

End InFlight.

(** ** The send protocol *)

Section Send.

Variables (now : Z) (p : ChatViewProps) (text : jsstring).

(** The server's view of the two documents of a send committed at [now]. *)
Lemma resolve_chatData :
  resolve now <$> chatData p text =
    {[ js "participants" := VArray [uid (currentUser p); uid (chatPartner p)];
       js "lastMessageText" := VString text;
       js "lastMessageTimestamp" := VTimestamp now ]}.
Proof.
  unfold chatData. now rewrite !fmap_insert, map_fmap_singleton.
Qed.

Lemma resolve_messageData :
  resolve now <$> messageData p text =
    {[ js "senderId" := VString (uid (currentUser p));
       js "text" := VString text;
       js "createdAt" := VTimestamp now ]}.
Proof.
  unfold messageData. now rewrite !fmap_insert, map_fmap_singleton.
Qed.

End Send.

(** C1. An accepted send (trimmed draft non-empty, no send in flight) hands
    exactly one batch to the store, made of two writes: a merging set of the
    conversation document with [participants] the current pair,
    [lastMessageText] the trimmed draft and [lastMessageTimestamp] the
    server-timestamp sentinel, and a set of a new message document with
    [senderId] the sender's id, [text] the trimmed draft and [createdAt] the
    sentinel. Submitting writes nothing by itself; when the commit succeeds
    both documents are written with the server's time, the other fields of
    the conversation document being kept; when it fails the store is as
    before. *)
Theorem send_performs_one_atomic_dual_write
  (w : World) (autoId : jsstring) :
  accepted w ->
  let p := props w in
  let text := trim (newMessage (state w)) in
  let me := uid (currentUser p) in
  let chat := chatDoc (chatIdOf p) in
  let message := autoDoc (messagesCollection (chatIdOf p)) autoId in
  let w1 := step w (Submit autoId) in
  let mine := length (pending w) in
  pending w1 =
    pending w ++
    [{| textToSend := text;
        batch :=
          [ {| w_ref := chat;
               w_data :=
                 {[ js "participants" := VArray [me; uid (chatPartner p)];
                    js "lastMessageText" := VString text;
                    js "lastMessageTimestamp" := VServerTimestamp ]};
               w_merge := true |};
            {| w_ref := message;
               w_data :=
                 {[ js "senderId" := VString me;
                    js "text" := VString text;
                    js "createdAt" := VServerTimestamp ]};
               w_merge := false |} ] |}] /\
  db w1 = db w /\
  (forall now,
     db (step w1 (Settle mine (Committed now))) =
       <[message :=
           {[ js "senderId" := VString me;
              js "text" := VString text;
              js "createdAt" := VTimestamp now ]}]>
       (<[chat :=
            {[ js "participants" := VArray [me; uid (chatPartner p)];
               js "lastMessageText" := VString text;
               js "lastMessageTimestamp" := VTimestamp now ]}
            ∪ default ∅ (db w !! chat)]> (db w))) /\
  (forall error, db (step w1 (Settle mine (Rejected error))) = db w).
Proof.
  intros Hacc p text me chat message w1 mine.
  assert (Hw1 : w1 =
    (setIsSending true >>> setSendError None >>> setNewMessage (js "")
     >>> awaitCommit
           {| textToSend := text;
              batch := sendBatch (props w) text autoId |}) w)
    by (apply handleSendMessage_accepted; assumption).
  assert (Hmine : forall o, step w1 (Settle mine o) =
    (setPending (delete mine (pending w1))
     >>> setDb (settle o (sendBatch p text autoId) (db w1))
     >>> handleSendMessage_settled
           {| textToSend := text; batch := sendBatch p text autoId |} o) w1).
  { intros o. simpl. unfold resume.
    replace (pending w1 !! mine)
      with (Some {| textToSend := text; batch := sendBatch p text autoId |});
      [reflexivity|].
    rewrite Hw1. run_cmds. symmetry. apply list_lookup_middle. reflexivity. }
  repeat split.
  - rewrite Hw1. reflexivity.
  - rewrite Hw1. reflexivity.
  - intros now. rewrite Hmine, Hw1. run_cmds.
    unfold apply_write; simpl.
    now rewrite resolve_chatData, resolve_messageData.
  - intros error. rewrite Hmine, Hw1. run_cmds.
    now destruct (isPermissionDenied error).
Qed.

Lemma send_performs_one_atomic_dual_write_witness :
  accepted Scenario.typed /\
  db (run Scenario.typed [Submit (js "m1"); Settle 0 (Committed 7)])
    !! autoDoc (messagesCollection (js "u1_u2")) (js "m1") =
    Some {[ js "senderId" := VString (js "u1");
            js "text" := VString (js "hi");
            js "createdAt" := VTimestamp 7 ]}.
Proof.
  assert (Hacc : accepted Scenario.typed) by (split; [discriminate|reflexivity]).
  split; [exact Hacc|].
  destruct (send_performs_one_atomic_dual_write Scenario.typed (js "m1") Hacc)
    as (_ & _ & Hok & _).
  simpl in Hok. simpl. rewrite Hok. apply lookup_insert_eq.
Defined.

(** C4. When the trimmed draft is empty or a send is in flight, a submit
    changes nothing at all: the state cells (draft, errors, [isSending]),
    the suspended send, the listeners and the store are as before, and no
    batch is built. *)
Theorem rejected_submit_is_noop (w : World) (autoId : jsstring) :
  trim (newMessage (state w)) = [] \/ isSending (state w) = true ->
  step w (Submit autoId) = w.
Proof. apply handleSendMessage_ignored. Qed.

Lemma rejected_submit_is_noop_witness :
  (trim (newMessage (state Scenario.fresh)) = [] \/
   isSending (state Scenario.fresh) = true) /\
  step Scenario.fresh (Submit (js "m1")) = Scenario.fresh.
Proof.
  assert (H : trim (newMessage (state Scenario.fresh)) = [] \/
              isSending (state Scenario.fresh) = true) by (left; reflexivity).
  split; [exact H|].
  exact (rejected_submit_is_noop Scenario.fresh (js "m1") H).
Defined.

(** ** Errors of the subscription *)

Section Classification.

Variable error : FirestoreError.

Lemma isPermissionDenied_true :
  code error = Some (js "permission-denied") -> isPermissionDenied error = true.
Proof.
  intros H. unfold isPermissionDenied, strict_eq. rewrite H.
  now apply bool_decide_eq_true_2.
Qed.

Lemma isPermissionDenied_false :
  code error <> Some (js "permission-denied") ->
  isPermissionDenied error = false.
Proof.
  intros H. unfold isPermissionDenied, strict_eq.
  destruct (code error) as [c|]; [|reflexivity].
  apply bool_decide_eq_false_2. congruence.
Qed.

(** The error callback of an active listener. *)
Lemma step_SnapshotError (w : World) (chatId : jsstring) :
  chatId ∈ listeners w ->
  step w (SnapshotError chatId error) =
    (unsubscribe chatId >>> onError error) w.
Proof. intros Hin. simpl. now rewrite bool_decide_eq_true_2. Qed.

End Classification.

(** C2. An error delivered by the message-log subscription falls in one of
    two classes. With code [permission-denied]: [messages] becomes the empty
    list, [fetchError] null and [isLoading] false, the history pane shows the
    empty list and no banner, and [sendError] is untouched. With any other
    code, or none: [fetchError] becomes the user-facing text and [isLoading]
    false, and the pane shows that text. *)
Theorem subscription_error_two_classes
  (w : World) (chatId : jsstring) (error : FirestoreError) :
  chatId ∈ listeners w ->
  let s' := state (step w (SnapshotError chatId error)) in
  (code error = Some (js "permission-denied") ->
   messages s' = [] /\ fetchError s' = None /\ isLoading s' = false /\
   renderHistory s' = MessageList true [] /\
   sendError s' = sendError (state w)) /\
  (code error <> Some (js "permission-denied") ->
   fetchError s' = Some fetchErrorText /\ isLoading s' = false /\
   renderHistory s' = ErrorBanner fetchErrorText).
Proof.
  intros Hin s'. subst s'. rewrite (step_SnapshotError _ _ _ Hin).
  split; intros Hcode.
  - unfold onError. rewrite (isPermissionDenied_true _ Hcode).
    run_cmds. auto.
  - unfold onError. rewrite (isPermissionDenied_false _ Hcode).
    run_cmds. auto.
Qed.

Lemma subscription_error_two_classes_witness :
  (js "u1_u2" ∈ listeners Scenario.loaded) /\
  renderHistory
    (state (step Scenario.loaded (SnapshotError (js "u1_u2") Scenario.denied)))
    = MessageList true [] /\
  renderHistory
    (state (step Scenario.loaded
              (SnapshotError (js "u1_u2") Scenario.unavailable)))
    = ErrorBanner fetchErrorText.
Proof.
  assert (Hin : js "u1_u2" ∈ listeners Scenario.loaded).
  { apply (bool_decide_unpack (js "u1_u2" ∈ listeners Scenario.loaded)).
    vm_compute. exact I. }
  split; [exact Hin|]. split.
  - destruct (subscription_error_two_classes Scenario.loaded (js "u1_u2")
                Scenario.denied Hin) as [Hdenied _].
    destruct (Hdenied eq_refl) as (_ & _ & _ & Hpane & _). exact Hpane.
  - destruct (subscription_error_two_classes Scenario.loaded (js "u1_u2")
                Scenario.unavailable Hin) as [_ Hother].
    assert (Hne : code Scenario.unavailable <> Some (js "permission-denied"))
      by discriminate.
    destruct (Hother Hne) as (_ & _ & Hpane). exact Hpane.
Defined.

(** C9. On a subscription error whose code is not [permission-denied], the
    [messages] delivered before stay as they are (and so do the draft,
    [isSending] and [sendError]): only [fetchError] and [isLoading] are
    written. The [permission-denied] branch, in contrast, replaces
    [messages] by the empty list. *)
Theorem genuine_subscription_error_keeps_messages
  (w : World) (chatId : jsstring) (error : FirestoreError) :
  chatId ∈ listeners w ->
  code error <> Some (js "permission-denied") ->
  let s' := state (step w (SnapshotError chatId error)) in
  s' = {| messages := messages (state w);
          newMessage := newMessage (state w);
          isLoading := false;
          isSending := isSending (state w);
          fetchError := Some fetchErrorText;
          sendError := sendError (state w) |} /\
  (forall denied, code denied = Some (js "permission-denied") ->
     messages (state (step w (SnapshotError chatId denied))) = []).
Proof.
  intros Hin Hcode s'. subst s'. split.
  - rewrite (step_SnapshotError _ _ _ Hin).
    unfold onError. rewrite (isPermissionDenied_false _ Hcode).
    reflexivity.
  - intros denied Hdenied. rewrite (step_SnapshotError _ _ _ Hin).
    unfold onError. rewrite (isPermissionDenied_true _ Hdenied).
    reflexivity.
Qed.

Lemma genuine_subscription_error_keeps_messages_witness :
  (js "u1_u2" ∈ listeners Scenario.loaded) /\
  code Scenario.unavailable <> Some (js "permission-denied") /\
  messages (state (step Scenario.loaded
                     (SnapshotError (js "u1_u2") Scenario.unavailable)))
    = [toMessage Scenario.hello].
Proof.
  assert (Hin : js "u1_u2" ∈ listeners Scenario.loaded).
  { apply (bool_decide_unpack (js "u1_u2" ∈ listeners Scenario.loaded)).
    vm_compute. exact I. }
  assert (Hne : code Scenario.unavailable <> Some (js "permission-denied"))
    by discriminate.
  split; [exact Hin|]. split; [exact Hne|].
  destruct (genuine_subscription_error_keeps_messages Scenario.loaded
              (js "u1_u2") Scenario.unavailable Hin Hne) as [Hstate _].
  rewrite Hstate. reflexivity.
Defined.

(** ** How a send ends *)

(** C3. An accepted send whose commit is rejected: whatever happened while
    it was in flight (typing included), afterwards the draft is exactly the
    trimmed text that was submitted, [isSending] is false and [sendError]
    is a text, one for [permission-denied] and a different one for every
    other failure; nothing was written to the store. *)
Theorem failed_send_restores_draft
  (w : World) (autoId : jsstring) (interim : list event)
  (error : FirestoreError) :
  reachable w -> accepted w ->
  Forall (fun e => isSettle e = false) interim ->
  let w' := step (run (step w (Submit autoId)) interim)
                 (Settle 0 (Rejected error)) in
  newMessage (state w') = trim (newMessage (state w)) /\
  isSending (state w') = false /\
  sendError (state w') =
    Some (if isPermissionDenied error then sendDeniedText
          else sendFailedText) /\
  sendError (state w') <> None /\
  sendDeniedText <> sendFailedText /\
  pending w' = [] /\
  db w' = db w.
Proof.
  intros Hreach Hacc Hquiet w'.
  destruct (in_flight w autoId interim Hreach Hacc Hquiet)
    as (_ & _ & Hdb & _ & _ & _ & Hpending).
  subst w'. rewrite (step_Settle_single _ _ _ Hpending).
  destruct (isPermissionDenied error) eqn:Hclass; run_cmds; rewrite Hclass;
    repeat split; try assumption; discriminate.
Qed.

Lemma failed_send_restores_draft_witness :
  reachable Scenario.typed /\ accepted Scenario.typed /\
  newMessage
    (state (run Scenario.typed
              [Submit (js "m1"); Change (js "more");
               Settle 0 (Rejected Scenario.denied)]))
    = js "hi".
Proof.
  assert (Hreach : reachable Scenario.typed).
  { exists Scenario.u1_u2, ∅, [Change (js " hi ")]. reflexivity. }
  assert (Hacc : accepted Scenario.typed)
    by (split; [discriminate|reflexivity]).
  assert (Hquiet : Forall (fun e => isSettle e = false) [Change (js "more")]).
  { constructor; [reflexivity|constructor]. }
  split; [exact Hreach|]. split; [exact Hacc|].
  destruct (failed_send_restores_draft Scenario.typed (js "m1")
              [Change (js "more")] Scenario.denied Hreach Hacc Hquiet)
    as [Hdraft _].
  exact Hdraft.
Defined.

(** C8, as stated, fails: the input stays editable while the send is in
    flight, and the success path does not write the draft; after typing "x"
    during a send that then succeeds, the draft is "x", not empty. *)
Lemma draft_after_successful_send_not_empty :
  accepted Scenario.typed /\
  newMessage
    (state (run Scenario.typed
              [Submit (js "m1"); Change (js "x"); Settle 0 (Committed 7)]))
    <> [].
Proof. split; [split; [discriminate|reflexivity]|discriminate]. Qed.

(** C8, amended. An accepted send whose commit succeeds: submitting clears
    the draft, and the success path does not write it, so afterwards the
    draft is what was typed last while the send was in flight, and empty
    when nothing was typed; [isSending] is false. Neither part of the send
    writes [messages]; no event does but those of the subscription. *)
Theorem successful_send_leaves_draft_and_messages
  (w : World) (autoId : jsstring) (interim : list event) (now : Z) :
  reachable w -> accepted w ->
  Forall (fun e => isSettle e = false) interim ->
  let w1 := step w (Submit autoId) in
  let w2 := run w1 interim in
  let w3 := step w2 (Settle 0 (Committed now)) in
  newMessage (state w1) = [] /\
  newMessage (state w3) = newMessage (state w2) /\
  newMessage (state w3) = lastTyped [] interim /\
  isSending (state w3) = false /\
  messages (state w1) = messages (state w) /\
  messages (state w3) = messages (state w2) /\
  (forall w0 e, fromSubscription e = false ->
     messages (state (step w0 e)) = messages (state w0)).
Proof.
  intros Hreach Hacc Hquiet w1 w2 w3.
  destruct (in_flight w autoId interim Hreach Hacc Hquiet)
    as (Hclear & Hmsgs & _ & _ & _ & Htyped & Hpending).
  fold w1 in Hclear, Hmsgs. fold w1 w2 in Htyped, Hpending.
  assert (Hw3 : state w3 = state (setIsSending false w2)).
  { subst w3. rewrite (step_Settle_single _ _ _ Hpending). reflexivity. }
  rewrite !Hw3. repeat split; try assumption.
  intros w0 e Hfrom.
  destruct e as [p|value|id|i o|c snapshot|c error]; simpl in *;
    try discriminate.
  - unfold rerender. case_bool_decide; reflexivity.
  - reflexivity.
  - unfold handleSendMessage.
    destruct (_ || _); reflexivity.
  - unfold resume. destruct (pending w0 !! i) as [ps|]; [|reflexivity].
    destruct o as [t|err]; [reflexivity|].
    simpl. now destruct (isPermissionDenied err).
Qed.

Lemma successful_send_leaves_draft_and_messages_witness :
  reachable Scenario.typed /\ accepted Scenario.typed /\
  newMessage
    (state (run Scenario.typed [Submit (js "m1"); Settle 0 (Committed 7)]))
    = [] /\
  newMessage
    (state (run Scenario.typed
              [Submit (js "m1"); Change (js "x"); Settle 0 (Committed 7)]))
    = js "x".
Proof.
  assert (Hreach : reachable Scenario.typed).
  { exists Scenario.u1_u2, ∅, [Change (js " hi ")]. reflexivity. }
  assert (Hacc : accepted Scenario.typed)
    by (split; [discriminate|reflexivity]).
  assert (Hnone : Forall (fun e : event => isSettle e = false) [])
    by constructor.
  assert (Hone : Forall (fun e => isSettle e = false) [Change (js "x")]).
  { constructor; [reflexivity|constructor]. }
  split; [exact Hreach|]. split; [exact Hacc|]. split.
  - destruct (successful_send_leaves_draft_and_messages Scenario.typed
                (js "m1") [] 7%Z Hreach Hacc Hnone) as (_ & _ & Hdraft & _).
    exact Hdraft.
  - destruct (successful_send_leaves_draft_and_messages Scenario.typed
                (js "m1") [Change (js "x")] 7%Z Hreach Hacc Hone)
      as (_ & _ & Hdraft & _).
    exact Hdraft.
Defined.

(** C10. An accepted send sets [sendError] to null before the commit,
    nothing sets it while the send is in flight, and the success path does
    not write it: after a successful send [sendError] is null, also when an
    earlier send had failed and left its text there. *)
Theorem successful_send_clears_sendError
  (w : World) (autoId : jsstring) (interim : list event) (now : Z) :
  reachable w -> accepted w ->
  Forall (fun e => isSettle e = false) interim ->
  let w1 := step w (Submit autoId) in
  let w2 := run w1 interim in
  let w3 := step w2 (Settle 0 (Committed now)) in
  sendError (state w1) = None /\
  sendError (state w2) = None /\
  sendError (state w3) = None /\
  pending w3 = [].
Proof.
  intros Hreach Hacc Hquiet w1 w2 w3.
  destruct (in_flight w autoId [] Hreach Hacc (List.Forall_nil _))
    as (_ & _ & _ & _ & Hfirst & _).
  destruct (in_flight w autoId interim Hreach Hacc Hquiet)
    as (_ & _ & _ & _ & Herr & _ & Hpending).
  fold w1 w2 in Herr, Hpending. simpl in Hfirst. fold w1 in Hfirst.
  subst w3. rewrite (step_Settle_single _ _ _ Hpending).
  run_cmds. auto.
Qed.

Lemma successful_send_clears_sendError_witness :
  reachable Scenario.after_failure /\ accepted Scenario.after_failure /\
  sendError (state Scenario.after_failure) = Some sendDeniedText /\
  sendError
    (state (run Scenario.after_failure
              [Submit (js "m2"); Settle 0 (Committed 9)]))
    = None.
Proof.
  assert (Hreach : reachable Scenario.after_failure).
  { exists Scenario.u1_u2, ∅,
      [Change (js " hi "); Submit (js "m1");
       Settle 0 (Rejected Scenario.denied)].
    reflexivity. }
  assert (Hacc : accepted Scenario.after_failure)
    by (split; [discriminate|reflexivity]).
  assert (Hnone : Forall (fun e : event => isSettle e = false) [])
    by constructor.
  split; [exact Hreach|]. split; [exact Hacc|]. split; [reflexivity|].
  destruct (successful_send_clears_sendError Scenario.after_failure
              (js "m2") [] 9%Z Hreach Hacc Hnone) as (_ & _ & Hfinal & _).
  exact Hfinal.
Defined.

(** ** Change of conversation *)






(** ** Worked scenarios *)

Example chat_id_of_u1_u2 : chatIdOf Scenario.u1_u2 = js "u1_u2".
Proof. reflexivity. Qed.

Example trim_strips_both_ends :
  trim [0x0020; 0x0009; 0x0068; 0x0020; 0x0069; 0x00A0; 0x000A]
    = [0x0068; 0x0020; 0x0069].
Proof. reflexivity. Qed.

(** A draft of blanks only is not sent. *)
Example blank_draft_not_sent :
  let w := run Scenario.fresh [Change (js "   ")] in
  step w (Submit (js "m1")) = w.
Proof. reflexivity. Qed.

(** A second submit while the first is in flight is dropped, whatever the
    draft holds by then. *)
Example second_submit_dropped :
  let w := run Scenario.typed [Submit (js "m1"); Change (js "again")] in
  isSending (state w) = true /\ step w (Submit (js "m2")) = w.
Proof. split; reflexivity. Qed.

(** The first send creates the conversation document; a later one merges
    into it and keeps a field it does not write. *)
Example merge_keeps_other_fields :
  let chat := chatDoc (js "u1_u2") in
  let db0 : gmap (list (list N)) (gmap (list N) value) :=
    {[ chat := {[ js "pinned" := VString (js "yes") ]} ]} in
  let w := run (mount Scenario.u1_u2 db0)
             [Change (js "hi"); Submit (js "m1"); Settle 0 (Committed 7)] in
  (db w !! chat) ≫= (fun d => d !! js "pinned") = Some (VString (js "yes")) /\
  (db w !! chat) ≫= (fun d => d !! js "lastMessageText")
    = Some (VString (js "hi")) /\
  (db w !! chat) ≫= (fun d => d !! js "lastMessageTimestamp")
    = Some (VTimestamp 7).
Proof. repeat split; vm_compute; reflexivity. Qed.

(** A fresh conversation: the listener reports [permission-denied], the
    pane shows the empty list with its hint, and the first send goes
    through. *)
Example fresh_conversation_ready :
  let w := run Scenario.fresh
             [SnapshotError (js "u1_u2") Scenario.denied] in
  renderHistory (state w) = MessageList true [] /\
  accepted (run w [Change (js "hi")]).
Proof. split; [reflexivity|split; [discriminate|reflexivity]]. Qed.

(** * Further properties of the code *)

(** ** Conversation ids of separator-free identifiers *)

Section SeparatorFree.

(** Where the first separator stands decides both halves. *)
Lemma separator_split_unique (x x' y y' : jsstring) :
  separator ∉ x -> separator ∉ x' ->
  x ++ separator :: y = x' ++ separator :: y' ->
  x = x' /\ y = y'.
Proof.
  revert x'; induction x as [|c x IH]; intros [|c' x'] Hx Hx' Heq;
    simpl in Heq.
  - injection Heq as ->. now split.
  - injection Heq as Hc _. exfalso. apply Hx'. subst c'. left.
  - injection Heq as Hc _. exfalso. apply Hx. subst c. left.
  - injection Heq as -> Heq.
    destruct (IH x') as [-> ->]; try assumption.
    + intros Hin. apply Hx. now right.
    + intros Hin. apply Hx'. now right.
    + now split.
Qed.

End SeparatorFree.

(** X1. On identifiers without ['_'] the conversation id determines the
    pair: two pairs with the same id are the same pair, in the same or in
    the opposite order. *)
Theorem getChatId_determines_pair (a b c d : jsstring) :
  separator ∉ a -> separator ∉ b -> separator ∉ c -> separator ∉ d ->
  getChatId a b = getChatId c d ->
  (a = c /\ b = d) \/ (a = d /\ b = c).
Proof.
  intros Ha Hb Hc Hd. rewrite !getChatId_cases.
  destruct (JsString.lt b a), (JsString.lt d c); intros Heq;
    apply separator_split_unique in Heq as [-> ->]; auto.
Qed.

Lemma getChatId_determines_pair_witness :
  (separator ∉ js "u1") /\ (separator ∉ js "u2") /\
  getChatId (js "u1") (js "u2") = getChatId (js "u2") (js "u1") /\
  ((js "u1" = js "u2" /\ js "u2" = js "u1") \/
   (js "u1" = js "u1" /\ js "u2" = js "u2")).
Proof.
  assert (H1 : (separator ∉ js "u1")).
  { apply (bool_decide_unpack (separator ∉ js "u1")). vm_compute. exact I. }
  assert (H2 : (separator ∉ js "u2")).
  { apply (bool_decide_unpack (separator ∉ js "u2")). vm_compute. exact I. }
  assert (Heq : getChatId (js "u1") (js "u2") = getChatId (js "u2") (js "u1"))
    by reflexivity.
  split; [exact H1|]. split; [exact H2|]. split; [exact Heq|].
  exact (getChatId_determines_pair (js "u1") (js "u2") (js "u2") (js "u1")
           H1 H2 H2 H1 Heq).
Defined.

(** X2. The conversation id is the smaller identifier (in code-unit order),
    the separator, and the other identifier, whichever order they were
    given in; so it is never empty, even for empty identifiers, and its
    length is the sum of the two lengths plus one. *)
Theorem getChatId_ascending (a b : jsstring) :
  exists x y,
    getChatId a b = x ++ separator :: y /\
    ((x = a /\ y = b) \/ (x = b /\ y = a)) /\
    JsString.lt y x = false /\
    getChatId a b <> [] /\
    length (getChatId a b) = (length a + length b + 1)%nat.
Proof.
  rewrite getChatId_cases.
  destruct (JsString.lt b a) eqn:Hba.
  - exists b, a. repeat split; auto.
    + now apply lt_asym.
    + now destruct b.
    + rewrite length_app. simpl. lia.
  - exists a, b. repeat split; auto.
    + now destruct a.
    + rewrite length_app. simpl. lia.
Qed.

(** ** trim *)

Section Trim.

Import JsString.

Lemma trimStart_head (s : jsstring) (c : N) (r : jsstring) :
  trimStart s = c :: r -> is_trimmed_char c = false.
Proof.
  induction s as [|x s IH]; simpl; [discriminate|].
  destruct (is_trimmed_char x) eqn:Hx; [exact IH|].
  intros Heq. injection Heq as <- _. exact Hx.
Qed.

Lemma trimStart_keep (c : N) (r : jsstring) :
  is_trimmed_char c = false -> trimStart (c :: r) = c :: r.
Proof. intros Hc. simpl. now rewrite Hc. Qed.

(** Stripping the front of a string that ends with a kept character stops
    at that character at the latest. *)
Lemma trimStart_snoc (l : jsstring) (d : N) :
  is_trimmed_char d = false ->
  exists pre suf, l = pre ++ suf /\ trimStart (l ++ [d]) = suf ++ [d].
Proof.
  intros Hd. induction l as [|x l (pre & suf & Hl & Hs)]; simpl.
  - exists [], []. rewrite Hd. now split.
  - destruct (is_trimmed_char x).
    + exists (x :: pre), suf. split; [now rewrite Hl|exact Hs].
    + exists [], (x :: l). now split.
Qed.

Lemma trimStart_blank (s : jsstring) :
  Forall (fun c => is_trimmed_char c = true) s -> trimStart s = [].
Proof.
  induction 1 as [|c s Hc _ IH]; simpl; [reflexivity|].
  now rewrite Hc.
Qed.

Lemma trimStart_exists (s : jsstring) :
  Exists (fun c => is_trimmed_char c = false) s ->
  Exists (fun c => is_trimmed_char c = false) (trimStart s).
Proof.
  induction 1 as [c s Hc|c s _ IH]; simpl.
  - rewrite Hc. now left.
  - destruct (is_trimmed_char c) eqn:Hc; [exact IH|].
    now left.
Qed.

Lemma trimEnd_exists (s : jsstring) :
  Exists (fun c => is_trimmed_char c = false) s ->
  Exists (fun c => is_trimmed_char c = false) (trimEnd s).
Proof.
  assert (Hrev : forall l : jsstring,
            Exists (fun c => is_trimmed_char c = false) l ->
            Exists (fun c => is_trimmed_char c = false) (rev l)).
  { intros l Hl. apply Exists_exists in Hl as (c & Hin & Hc).
    apply Exists_exists. exists c. split; [|exact Hc].
    apply list_elem_of_In. apply -> in_rev. now apply list_elem_of_In. }
  intros H. unfold trimEnd.
  apply Hrev, trimStart_exists, Hrev, H.
Qed.

(** What [trim] returns when it is not empty. *)
Lemma trim_shape (s : jsstring) (c : N) (r : jsstring) :
  trim s = c :: r -> Composer.trimmedText (trim s).
Proof.
  unfold trim, trimEnd. intros Heq.
  destruct (trimStart s) as [|x t] eqn:Hfront; [discriminate|].
  pose proof (trimStart_head _ _ _ Hfront) as Hx.
  simpl in *. split.
  - destruct (trimStart_snoc (rev t) x Hx) as (pre & suf & _ & Hs).
    rewrite Hs, rev_app_distr. simpl.
    exists x, (rev suf). now split.
  - destruct (trimStart (rev t ++ [x])) as [|d u] eqn:Hback;
      [discriminate|].
    exists (rev u), d. split; [reflexivity|].
    eapply trimStart_head. exact Hback.
Qed.

Lemma trimmedText_fixed (s : jsstring) :
  Composer.trimmedText s -> trim s = s.
Proof.
  intros [(c & r & Hs & Hc) (r' & d & Hs' & Hd)].
  unfold trim. replace (trimStart s) with s
    by (rewrite Hs; symmetry; now apply trimStart_keep).
  unfold trimEnd. rewrite Hs', rev_app_distr. simpl.
  rewrite Hd. simpl. now rewrite rev_involutive.
Qed.

End Trim.

(** X3. What [trim] returns is empty or starts and ends with a character
    that is not white space, and trimming it again changes nothing. *)
Theorem trim_trimmed_and_idempotent (s : jsstring) :
  (trim s = [] \/ Composer.trimmedText (trim s)) /\
  trim (trim s) = trim s.
Proof.
  destruct (trim s) as [|c r] eqn:Hs.
  - split; [now left|reflexivity].
  - pose proof (trim_shape s c r Hs) as Hshape. rewrite Hs in Hshape.
    split; [now right|]. now apply trimmedText_fixed.
Qed.

Section Acceptance.

Lemma trim_blank (s : jsstring) :
  Forall (fun c => is_trimmed_char c = true) s -> trim s = [].
Proof.
  intros H. unfold trim. now rewrite (trimStart_blank s H).
Qed.

Lemma trim_not_blank (s : jsstring) :
  Exists (fun c => is_trimmed_char c = false) s -> trim s <> [].
Proof.
  intros H Hempty. apply trimStart_exists, trimEnd_exists in H.
  fold (trim s) in H. rewrite Hempty in H. inversion H.
Qed.

Lemma blank_or_not (s : jsstring) :
  Forall (fun c => is_trimmed_char c = true) s \/
  Exists (fun c => is_trimmed_char c = false) s.
Proof.
  induction s as [|c s [IH|IH]].
  - left. constructor.
  - destruct (is_trimmed_char c) eqn:Hc.
    + left. now constructor.
    + right. now left.
  - right. now right.
Qed.

End Acceptance.

(** X4. A submit does something exactly when no send is in flight and the
    draft has a character that is not white space; a draft of white space
    only, of whatever length, is never sent. *)
Theorem submit_takes_effect_iff (w : World) (autoId : jsstring) :
  step w (Submit autoId) <> w <->
  isSending (state w) = false /\
  Exists (fun c => is_trimmed_char c = false) (newMessage (state w)).
Proof.
  split.
  - intros Hstep.
    destruct (isSending (state w)) eqn:Hbusy.
    + exfalso. apply Hstep. simpl. apply handleSendMessage_ignored.
      now right.
    + split; [reflexivity|].
      destruct (blank_or_not (newMessage (state w))) as [Hblank|Hsome];
        [|exact Hsome].
      exfalso. apply Hstep. simpl. apply handleSendMessage_ignored.
      left. now apply trim_blank.
  - intros [Hidle Hsome] Heq.
    assert (Hacc : accepted w).
    { split; [now apply trim_not_blank|exact Hidle]. }
    simpl in Heq. rewrite (handleSendMessage_accepted w autoId Hacc) in Heq.
    apply (f_equal (fun x => isSending (state x))) in Heq.
    simpl in Heq. congruence.
Qed.

(** ** Invariants of the mounted component *)

(** X5. At every moment at most one listener of the component is active,
    and it is the one of the conversation of the current props: the
    listeners of earlier conversations have all been unsubscribed. *)
Theorem reachable_one_listener (w : World) :
  reachable w ->
  listeners w = [] \/ listeners w = [chatIdOf (props w)].
Proof. intros Hreach. now destruct (reachable_inv w Hreach). Qed.

Lemma reachable_one_listener_witness :
  reachable Scenario.loaded /\
  (listeners Scenario.loaded = [] \/
   listeners Scenario.loaded = [chatIdOf (props Scenario.loaded)]).
Proof.
  assert (Hreach : reachable Scenario.loaded).
  { exists Scenario.u1_u2, ∅, [Snapshot (js "u1_u2") [Scenario.hello]].
    reflexivity. }
  split; [exact Hreach|].
  exact (reachable_one_listener Scenario.loaded Hreach).
Defined.

(** X6. [isSending] tells exactly whether a send is in flight, and at most
    one is: the flag is true if and only if an invocation of
    [handleSendMessage] is suspended at its commit, and there is never a
    second one. *)
Theorem reachable_isSending_iff_in_flight (w : World) :
  reachable w ->
  (isSending (state w) = true <-> pending w <> []) /\
  (length (pending w) <= 1)%nat.
Proof.
  intros Hreach. destruct (reachable_inv w Hreach) as [Hidle Hbusy _].
  destruct (isSending (state w)) eqn:Hs.
  - destruct (Hbusy eq_refl) as [[ps Hone] _]. rewrite Hone.
    split; [split; [discriminate|reflexivity]|simpl; lia].
  - rewrite (Hidle eq_refl). split; [split; congruence|simpl; lia].
Qed.

Lemma reachable_isSending_iff_in_flight_witness :
  reachable Scenario.typed /\
  (isSending (state Scenario.typed) = true <-> pending Scenario.typed <> []).
Proof.
  assert (Hreach : reachable Scenario.typed).
  { exists Scenario.u1_u2, ∅, [Change (js " hi ")]. reflexivity. }
  split; [exact Hreach|].
  exact (proj1 (reachable_isSending_iff_in_flight Scenario.typed Hreach)).
Defined.

Section MoreInvariants.

Import Composer.

Lemma isPermissionDenied_cases (error : FirestoreError) :
  isPermissionDenied error = true \/ isPermissionDenied error = false.
Proof. destruct (isPermissionDenied error); auto. Qed.

Lemma step_wellFormed (w : World) (e : event) :
  Forall wellFormedSend (pending w) ->
  Forall wellFormedSend (pending (step w e)).
Proof.
  intros Hall.
  destruct e as [p|value|autoId|i o|c snapshot|c error]; simpl.
  - unfold rerender. case_bool_decide; exact Hall.
  - exact Hall.
  - unfold handleSendMessage.
    destruct (strict_eq _ _) eqn:Hempty; simpl; [exact Hall|].
    destruct (isSending (state w)); simpl; [exact Hall|].
    run_cmds. apply Forall_app. split; [exact Hall|].
    constructor; [|constructor].
    unfold strict_eq in Hempty. apply bool_decide_eq_false in Hempty.
    destruct (trim (newMessage (state w))) as [|c r] eqn:Htrim;
      [now destruct Hempty|].
    split; simpl.
    + rewrite <- Htrim. eapply trim_shape. exact Htrim.
    + now exists (props w), autoId.
  - unfold resume. destruct (pending w !! i) as [ps|]; [|exact Hall].
    assert (Hrest : Forall wellFormedSend (delete i (pending w)))
      by now apply Forall_delete.
    destruct o as [t|err]; [exact Hrest|].
    simpl. destruct (isPermissionDenied err); exact Hrest.
  - case_bool_decide; exact Hall.
  - case_bool_decide; [|exact Hall].
    unfold seq, onError. destruct (isPermissionDenied error); exact Hall.
Qed.

Lemma step_knownErrorTexts (w : World) (e : event) :
  knownErrorTexts (state w) -> knownErrorTexts (state (step w e)).
Proof.
  intros [Hfetch Hsend].
  destruct e as [p|value|autoId|i o|c snapshot|c error]; simpl.
  - unfold rerender. case_bool_decide; [now split|].
    split; [now left|exact Hsend].
  - now split.
  - unfold handleSendMessage. destruct (_ || _); [now split|].
    split; [exact Hfetch|now left].
  - unfold resume. destruct (pending w !! i) as [ps|]; [|now split].
    destruct o as [t|err]; [now split|].
    simpl. destruct (isPermissionDenied err); split; simpl; auto.
  - case_bool_decide; [|now split].
    split; [now left|exact Hsend].
  - case_bool_decide; [|now split].
    unfold seq, onError. destruct (isPermissionDenied error);
      split; simpl; auto.
Qed.

End MoreInvariants.

Section Runs.

(** A property kept by every event holds along every run. *)
Lemma run_preserves (P : World -> Prop) :
  (forall w e, P w -> P (step w e)) ->
  forall events w, P w -> P (run w events).
Proof.
  intros Hstep events. induction events as [|e events IH]; intros w Hw.
  - exact Hw.
  - simpl. apply IH, Hstep, Hw.
Qed.

End Runs.

(** X7. Every send in flight carries a text that is not empty and that
    starts and ends with a character that is not white space, and its batch
    is the dual write built from that very text (for the props of the
    moment of the submit). *)
Theorem reachable_sends_well_formed (w : World) :
  reachable w -> Forall Composer.wellFormedSend (pending w).
Proof.
  intros (p & db0 & events & ->).
  apply (run_preserves
           (fun w => Forall Composer.wellFormedSend (pending w))).
  - apply step_wellFormed.
  - constructor.
Qed.

Lemma reachable_sends_well_formed_witness :
  let w := run Scenario.typed [Submit (js "m1")] in
  reachable w /\ Forall Composer.wellFormedSend (pending w).
Proof.
  assert (Hreach : reachable (run Scenario.typed [Submit (js "m1")])).
  { exists Scenario.u1_u2, ∅, [Change (js " hi "); Submit (js "m1")].
    reflexivity. }
  split; [exact Hreach|].
  exact (reachable_sends_well_formed _ Hreach).
Defined.

(** X8. The error cells only ever hold the texts of the source, which are
    not empty: so whenever [sendError] is set its text is shown under the
    composer, and whenever [fetchError] is set and loading is over the
    history pane shows its text. *)
Theorem reachable_errors_are_shown (w : World) :
  reachable w ->
  Composer.knownErrorTexts (state w) /\
  Composer.sendErrorBanner (state w) = sendError (state w) /\
  (forall text, fetchError (state w) = Some text ->
     isLoading (state w) = false ->
     renderHistory (state w) = ErrorBanner text).
Proof.
  intros (p & db0 & events & ->).
  assert (Hknown : Composer.knownErrorTexts
                     (state (run (mount p db0) events))).
  { apply (run_preserves (fun w => Composer.knownErrorTexts (state w))).
    - apply step_knownErrorTexts.
    - split; now left. }
  split; [exact Hknown|].
  destruct Hknown as [Hfetch Hsend]. split.
  - unfold Composer.sendErrorBanner.
    destruct Hsend as [->|[->| ->]]; reflexivity.
  - intros text Htext Hready. unfold renderHistory.
    rewrite Hready, Htext.
    destruct Hfetch as [Hnone| Hsome]; [congruence|].
    rewrite Htext in Hsome. injection Hsome as ->. reflexivity.
Qed.

Lemma reachable_errors_are_shown_witness :
  reachable Scenario.after_failure /\
  Composer.sendErrorBanner (state Scenario.after_failure)
    = Some sendDeniedText.
Proof.
  assert (Hreach : reachable Scenario.after_failure).
  { exists Scenario.u1_u2, ∅,
      [Change (js " hi "); Submit (js "m1");
       Settle 0 (Rejected Scenario.denied)].
    reflexivity. }
  split; [exact Hreach|].
  destruct (reachable_errors_are_shown Scenario.after_failure Hreach)
    as (_ & Hbanner & _).
  rewrite Hbanner. reflexivity.
Defined.

(** ** Which events write what *)

(** X9. Typing, submitting and the settling of a commit, failed or not,
    never touch the subscription side: props, listeners, [messages],
    [isLoading] and [fetchError] are as before, and so is the history
    pane. *)
Theorem composer_events_keep_history (w : World) (e : event) :
  Composer.fromComposer e = true ->
  props (step w e) = props w /\
  listeners (step w e) = listeners w /\
  messages (state (step w e)) = messages (state w) /\
  isLoading (state (step w e)) = isLoading (state w) /\
  fetchError (state (step w e)) = fetchError (state w) /\
  renderHistory (state (step w e)) = renderHistory (state w).
Proof.
  intros He.
  destruct e as [p|value|autoId|i o|c snapshot|c error]; simpl in *;
    try discriminate.
  - repeat split.
  - unfold handleSendMessage. destruct (_ || _); repeat split.
  - unfold resume. destruct (pending w !! i) as [ps|]; [|repeat split].
    destruct o as [t|err]; [repeat split|].
    simpl. destruct (isPermissionDenied err); repeat split.
Qed.

Lemma composer_events_keep_history_witness :
  renderHistory (state (step Scenario.loaded (Change (js "x"))))
    = renderHistory (state Scenario.loaded).
Proof.
  destruct (composer_events_keep_history Scenario.loaded (Change (js "x"))
              eq_refl) as (_ & _ & _ & _ & _ & Hpane).
  exact Hpane.
Defined.

(** X10. Renders and the callbacks of the subscription never touch the
    composer side: the draft, [isSending], [sendError], the send in flight
    and the store are as before. A change of conversation in particular
    keeps the draft and does not cancel a send in flight. *)
Theorem other_events_keep_composer (w : World) (e : event) :
  Composer.fromComposer e = false ->
  newMessage (state (step w e)) = newMessage (state w) /\
  isSending (state (step w e)) = isSending (state w) /\
  sendError (state (step w e)) = sendError (state w) /\
  pending (step w e) = pending w /\
  db (step w e) = db w.
Proof.
  intros He.
  destruct e as [p|value|autoId|i o|c snapshot|c error]; simpl in *;
    try discriminate.
  - unfold rerender. case_bool_decide; repeat split.
  - case_bool_decide; repeat split.
  - case_bool_decide; [|repeat split].
    unfold seq, onError. destruct (isPermissionDenied error); repeat split.
Qed.

Lemma other_events_keep_composer_witness :
  newMessage (state (step Scenario.typed (Render Scenario.u1_u3)))
    = js " hi ".
Proof.
  destruct (other_events_keep_composer Scenario.typed
              (Render Scenario.u1_u3) eq_refl) as (Hdraft & _).
  rewrite Hdraft. reflexivity.
Defined.

(** X11. The store is written by nothing but a commit that succeeds: along
    any run without such an event, rejected commits included, it stays as
    it was. *)
Theorem store_written_by_commits_only (w : World) (events : list event) :
  Forall (fun e => Composer.isCommitted e = false) events ->
  db (run w events) = db w.
Proof.
  revert w. induction events as [|e events IH]; intros w Hall.
  - reflexivity.
  - inversion Hall as [|? ? He Hrest]; subst. simpl.
    rewrite (IH _ Hrest).
    destruct e as [p|value|autoId|i o|c snapshot|c error]; simpl in *.
    + unfold rerender. case_bool_decide; reflexivity.
    + reflexivity.
    + unfold handleSendMessage. destruct (_ || _); reflexivity.
    + destruct o as [t|err]; [discriminate|].
      unfold resume. destruct (pending w !! i) as [ps|]; [|reflexivity].
      simpl. destruct (isPermissionDenied err); reflexivity.
    + case_bool_decide; reflexivity.
    + case_bool_decide; [|reflexivity].
      unfold seq, onError. destruct (isPermissionDenied error); reflexivity.
Qed.

Lemma store_written_by_commits_only_witness :
  db (run Scenario.typed
        [Submit (js "m1"); Settle 0 (Rejected Scenario.unavailable)])
    = db Scenario.typed.
Proof.
  apply (store_written_by_commits_only Scenario.typed
           [Submit (js "m1"); Settle 0 (Rejected Scenario.unavailable)]).
  repeat constructor.
Defined.

(** X12. A send error stays until the next accepted submit: once
    [sendError] holds a text, typing, renders, snapshots, subscription
    errors and ignored submits all leave it there; the only event that
    changes it is a submit that passes the guard, which clears it. *)
Theorem sendError_stays_until_next_send
  (w : World) (text : jsstring) (e : event) :
  reachable w ->
  sendError (state w) = Some text ->
  sendError (state (step w e)) = Some text \/
  (exists autoId, e = Submit autoId /\ accepted w /\
                  sendError (state (step w e)) = None).
Proof.
  intros Hreach Herr.
  destruct (reachable_inv w Hreach) as [Hidle Hbusy _].
  assert (Hnot : isSending (state w) = false).
  { destruct (isSending (state w)) eqn:Hs; [|reflexivity].
    destruct (Hbusy eq_refl) as [_ Hnone]. congruence. }
  destruct e as [p|value|autoId|i o|c snapshot|c error]; simpl.
  - left. unfold rerender. case_bool_decide; exact Herr.
  - left. exact Herr.
  - unfold handleSendMessage, strict_eq. rewrite Hnot, orb_false_r.
    case_bool_decide as Hempty; [now left|].
    right. exists autoId. repeat split; assumption.
  - left. unfold resume. rewrite (Hidle Hnot).
    rewrite lookup_nil. exact Herr.
  - left. case_bool_decide; exact Herr.
  - left. case_bool_decide; [|exact Herr].
    unfold seq, onError. destruct (isPermissionDenied error); exact Herr.
Qed.

Lemma sendError_stays_until_next_send_witness :
  reachable Scenario.after_failure /\
  sendError (state (step Scenario.after_failure (Change (js "hi again"))))
    = Some sendDeniedText.
Proof.
  assert (Hreach : reachable Scenario.after_failure).
  { exists Scenario.u1_u2, ∅,
      [Change (js " hi "); Submit (js "m1");
       Settle 0 (Rejected Scenario.denied)].
    reflexivity. }
  split; [exact Hreach|].
  destruct (sendError_stays_until_next_send Scenario.after_failure
              sendDeniedText (Change (js "hi again")) Hreach eq_refl)
    as [Hkept|(autoId & Habsurd & _)].
  - exact Hkept.
  - discriminate Habsurd.
Defined.

(** ** The subscription *)

(** X13. A snapshot of the active listener replaces the history: [messages]
    is the delivered documents, one message each, in the delivered order;
    loading is over and a fetch error is cleared, so the pane shows that
    list (with the hint when it is empty). Nothing of an earlier snapshot
    survives a later one. *)
Theorem snapshot_replaces_history
  (w : World) (chatId : jsstring)
  (snapshot : list QueryDocumentSnapshot) :
  chatId ∈ listeners w ->
  let w1 := step w (Snapshot chatId snapshot) in
  messages (state w1) = toMessage <$> snapshot /\
  length (messages (state w1)) = length snapshot /\
  fetchError (state w1) = None /\
  isLoading (state w1) = false /\
  renderHistory (state w1) =
    MessageList (bool_decide (length snapshot = 0%nat))
                (toMessage <$> snapshot) /\
  (forall later,
     state (step w1 (Snapshot chatId later)) =
     state (step w (Snapshot chatId later))).
Proof.
  intros Hin w1.
  assert (Hw1 : w1 = onNext snapshot w).
  { subst w1. simpl. now rewrite bool_decide_eq_true_2. }
  rewrite Hw1. repeat split.
  - simpl. apply length_fmap.
  - unfold renderHistory, renderMessages. simpl.
    now rewrite length_fmap.
  - intros later. simpl. now rewrite !bool_decide_eq_true_2.
Qed.

Lemma snapshot_replaces_history_witness :
  (js "u1_u2" ∈ listeners Scenario.loaded) /\
  renderHistory
    (state (step Scenario.loaded (Snapshot (js "u1_u2") [])))
    = MessageList true [].
Proof.
  assert (Hin : js "u1_u2" ∈ listeners Scenario.loaded).
  { apply (bool_decide_unpack (js "u1_u2" ∈ listeners Scenario.loaded)).
    vm_compute. exact I. }
  split; [exact Hin|].
  destruct (snapshot_replaces_history Scenario.loaded (js "u1_u2") [] Hin)
    as (_ & _ & _ & _ & Hpane & _).
  exact Hpane.
Defined.

Section Deaf.

Import Composer.

(** Without a listener, and while the chat id stays the same, nothing
    subscribes and nothing writes the subscription side. *)
Lemma deaf_step (w : World) (e : event) :
  listeners w = [] ->
  keepsChat (chatIdOf (props w)) e ->
  listeners (step w e) = [] /\
  chatIdOf (props (step w e)) = chatIdOf (props w) /\
  messages (state (step w e)) = messages (state w) /\
  isLoading (state (step w e)) = isLoading (state w) /\
  fetchError (state (step w e)) = fetchError (state w).
Proof.
  intros Hdeaf Hkeeps.
  destruct e as [p|value|autoId|i o|c snapshot|c error]; simpl in *.
  - unfold rerender. rewrite bool_decide_eq_true_2 by exact Hkeeps.
    repeat split; assumption.
  - repeat split; assumption.
  - unfold handleSendMessage. destruct (_ || _); repeat split; assumption.
  - unfold resume. destruct (pending w !! i) as [ps|];
      [|repeat split; assumption].
    destruct o as [t|err]; [repeat split; assumption|].
    simpl. destruct (isPermissionDenied err); repeat split; assumption.
  - case_bool_decide as Hc; [|repeat split; assumption].
    rewrite Hdeaf in Hc. now apply elem_of_nil in Hc.
  - case_bool_decide as Hc; [|repeat split; assumption].
    rewrite Hdeaf in Hc. now apply elem_of_nil in Hc.
Qed.

Lemma deaf_run (events : list event) (w : World) :
  listeners w = [] ->
  Forall (keepsChat (chatIdOf (props w))) events ->
  listeners (run w events) = [] /\
  messages (state (run w events)) = messages (state w) /\
  isLoading (state (run w events)) = isLoading (state w) /\
  fetchError (state (run w events)) = fetchError (state w).
Proof.
  revert w. induction events as [|e events IH]; intros w Hdeaf Hall.
  - repeat split; assumption.
  - inversion Hall as [|? ? He Hrest]; subst.
    destruct (deaf_step w e Hdeaf He) as (Hl & Hc & Hm & Hi & Hf).
    rewrite <- Hc in Hrest.
    destruct (IH (step w e) Hl Hrest) as (Hl' & Hm' & Hi' & Hf').
    simpl. rewrite Hl', Hm', Hi', Hf', Hm, Hi, Hf. repeat split.
Qed.

End Deaf.

(** X14. The component does not subscribe again after an error of its
    listener (which Firestore has ended by then): as long as the chat id
    stays the same, whatever else happens, sends that succeed included, no
    listener is active, snapshots are not applied, and [messages],
    [isLoading] and [fetchError] stay as the error callback left them. *)
Theorem no_resubscription_after_error
  (w : World) (chatId : jsstring) (error : FirestoreError)
  (events : list event) :
  reachable w ->
  chatId ∈ listeners w ->
  Forall (Composer.keepsChat (chatIdOf (props w))) events ->
  let w1 := step w (SnapshotError chatId error) in
  let w2 := run w1 events in
  listeners w2 = [] /\
  messages (state w2) = messages (state w1) /\
  isLoading (state w2) = false /\
  fetchError (state w2) = fetchError (state w1) /\
  renderHistory (state w2) = renderHistory (state w1).
Proof.
  intros Hreach Hin Hall w1 w2.
  destruct (reachable_inv w Hreach) as [_ _ Hlis].
  assert (Hw1 : w1 = (unsubscribe chatId >>> onError error) w).
  { subst w1. simpl. now rewrite bool_decide_eq_true_2. }
  assert (Hdeaf : listeners w1 = []).
  { rewrite Hw1. unfold seq, onError.
    assert (Hgone : remove_listener chatId (listeners w) = []).
    { destruct Hlis as [Hl|Hl]; rewrite Hl in Hin |- *; [reflexivity|].
      apply list_elem_of_singleton in Hin. subst chatId.
      apply remove_listener_single. }
    destruct (isPermissionDenied error); simpl; exact Hgone. }
  assert (Hprops : props w1 = props w).
  { rewrite Hw1. unfold seq, onError.
    destruct (isPermissionDenied error); reflexivity. }
  assert (Hready : isLoading (state w1) = false).
  { rewrite Hw1. unfold seq, onError.
    destruct (isPermissionDenied error); reflexivity. }
  rewrite <- Hprops in Hall.
  destruct (deaf_run events w1 Hdeaf Hall) as (Hl & Hm & Hi & Hf).
  fold w2 in Hl, Hm, Hi, Hf.
  repeat split; try assumption; try congruence.
  unfold renderHistory, renderMessages. now rewrite Hm, Hi, Hf.
Qed.

Lemma no_resubscription_after_error_witness :
  reachable Scenario.fresh /\
  (js "u1_u2" ∈ listeners Scenario.fresh) /\
  renderHistory
    (state (run (step Scenario.fresh
                   (SnapshotError (js "u1_u2") Scenario.denied))
              [Change (js "hi"); Submit (js "m1"); Settle 0 (Committed 7);
               Snapshot (js "u1_u2") [Scenario.hello]]))
    = MessageList true [].
Proof.
  assert (Hreach : reachable Scenario.fresh).
  { exists Scenario.u1_u2, ∅, []. reflexivity. }
  assert (Hin : js "u1_u2" ∈ listeners Scenario.fresh).
  { apply (bool_decide_unpack (js "u1_u2" ∈ listeners Scenario.fresh)).
    vm_compute. exact I. }
  assert (Hall : Forall (Composer.keepsChat (chatIdOf (props Scenario.fresh)))
                   [Change (js "hi"); Submit (js "m1");
                    Settle 0 (Committed 7);
                    Snapshot (js "u1_u2") [Scenario.hello]]).
  { repeat constructor. }
  split; [exact Hreach|]. split; [exact Hin|].
  destruct (no_resubscription_after_error Scenario.fresh (js "u1_u2")
              Scenario.denied _ Hreach Hin Hall) as (_ & _ & _ & _ & Hpane).
  rewrite Hpane. reflexivity.
Defined.

(** ** From documents to bubbles *)

(** X15. A message carries the fields of its document unchanged, and its
    [id] is the document id, unless the document itself stores a field
    named [id]: the spread comes last, so that stored field shadows the
    document id. *)
Theorem toMessage_fields (d : QueryDocumentSnapshot) :
  (data d !! js "id" = None ->
   toMessage d !! js "id" = Some (VString (id d))) /\
  (forall v, data d !! js "id" = Some v -> toMessage d !! js "id" = Some v) /\
  (forall field, field <> js "id" -> toMessage d !! field = data d !! field).
Proof.
  unfold toMessage. repeat split.
  - intros Hnone. rewrite lookup_union_r by exact Hnone.
    apply lookup_singleton_eq.
  - intros v Hsome. now apply lookup_union_Some_l.
  - intros field Hfield. rewrite lookup_union.
    rewrite lookup_singleton_ne by congruence.
    now destruct (data d !! field).
Qed.

Lemma toMessage_fields_witness :
  toMessage Scenario.hello !! js "id" = Some (VString (js "m0")) /\
  toMessage Scenario.hello !! js "text" = Some (VString (js "hello")).
Proof.
  destruct (toMessage_fields Scenario.hello) as (Hid & _ & Hother).
  split.
  - apply Hid. reflexivity.
  - rewrite Hother by discriminate. reflexivity.
Defined.



Section Button.

Lemma truthy_nonempty (s : jsstring) : truthy s = true <-> s <> [].
Proof. destruct s; simpl; split; congruence. Qed.

End Button.

(** X17. The submit button and the guard of the handler agree: the button
    is enabled exactly in the states in which [handleSendMessage] accepts
    the submit. *)
Theorem submit_enabled_iff_accepted (w : World) :
  Composer.submitDisabled (state w) = false <-> accepted w.
Proof.
  unfold Composer.submitDisabled, accepted.
  rewrite orb_false_iff, negb_false_iff, truthy_nonempty.
  tauto.
Qed.

(** ** The documents of a committed send *)

Section Committed.

Variables (now : Z) (p : ChatViewProps) (text autoId : jsstring).

Let chat := chatDoc (chatIdOf p).
Let message := autoDoc (messagesCollection (chatIdOf p)) autoId.

(** The two writes of the batch, on the server. *)
Lemma apply_sendBatch (s : gmap (list (list N)) (gmap (list N) value)) :
  apply_batch now (sendBatch p text autoId) s =
    <[message := resolve now <$> messageData p text]>
      (<[chat := (resolve now <$> chatData p text)
                 ∪ default ∅ (s !! chat)]> s).
Proof. reflexivity. Qed.

Lemma message_is_not_chat : message <> chat.
Proof. discriminate. Qed.

Lemma stored_message_senderId :
  (resolve now <$> messageData p text) !! js "senderId"
    = Some (VString (uid (currentUser p))).
Proof. rewrite resolve_messageData. apply lookup_insert_eq. Qed.

Lemma stored_message_text :
  (resolve now <$> messageData p text) !! js "text" = Some (VString text).
Proof.
  rewrite resolve_messageData.
  rewrite lookup_insert_ne by discriminate. apply lookup_insert_eq.
Qed.

Lemma stored_message_no_id :
  (resolve now <$> messageData p text) !! js "id" = None.
Proof.
  rewrite resolve_messageData.
  rewrite !lookup_insert_ne by discriminate.
  now rewrite lookup_singleton_ne by discriminate.
Qed.

(** A field of the conversation document the send does not write. *)
Lemma stored_chat_other_field (field : jsstring) :
  field ∉ Composer.chatFields ->
  (resolve now <$> chatData p text) !! field = None.
Proof.
  intros Hfield. rewrite resolve_chatData.
  unfold Composer.chatFields in Hfield.
  rewrite !lookup_insert_ne, lookup_singleton_ne; [reflexivity|..];
    intros <-; apply Hfield; set_solver.
Qed.

End Committed.

Section SubmitCommit.

(** An accepted submit followed by the success of its commit. *)
Lemma submit_then_commit (w : World) (autoId : jsstring) (now : Z) :
  accepted w ->
  db (step (step w (Submit autoId))
           (Settle (length (pending w)) (Committed now))) =
    apply_batch now
      (sendBatch (props w) (trim (newMessage (state w))) autoId) (db w).
Proof.
  intros Hacc. cbn [step].
  rewrite (handleSendMessage_accepted w autoId Hacc).
  unfold resume.
  replace (pending _ !! length (pending w))
    with (Some {| textToSend := trim (newMessage (state w));
                  batch := sendBatch (props w)
                             (trim (newMessage (state w))) autoId |}).
  - reflexivity.
  - symmetry. run_cmds. apply list_lookup_middle. reflexivity.
Qed.

End SubmitCommit.

(** X18. A send that commits comes back as the sender's own bubble: the
    stored message document, delivered under its id, is keyed by that id,
    shows the trimmed draft and is aligned as the viewer's own; in the
    component of a partner with another uid the same document is aligned as
    the other side's. *)
Theorem sent_message_shown_as_own
  (w : World) (autoId : jsstring) (now : Z) :
  accepted w ->
  let p := props w in
  let text := trim (newMessage (state w)) in
  let w' := step (step w (Submit autoId))
                 (Settle (length (pending w)) (Committed now)) in
  exists stored,
    db w' !! autoDoc (messagesCollection (chatIdOf p)) autoId = Some stored /\
    let msg := toMessage {| id := autoId; data := stored |} in
    Composer.messageElement p msg =
      (Some (VString autoId),
       {| Message.className := js "w-full flex flex-col items-end";
          Message.bubbleClassName :=
            js "px-4 py-2 rounded-2xl max-w-xs md:max-w-md break-words bg-accent text-accent-text rounded-br-lg";
          Message.children := Some (VString text) |}) /\
    (uid (chatPartner p) <> uid (currentUser p) ->
     Composer.messageElement (Composer.swapped p) msg =
       (Some (VString autoId),
        {| Message.className := js "w-full flex flex-col items-start";
           Message.bubbleClassName :=
             js "px-4 py-2 rounded-2xl max-w-xs md:max-w-md break-words bg-white/10 text-text-light rounded-bl-lg";
           Message.children := Some (VString text) |})).
Proof.
  intros Hacc p text w'.
  exists (resolve now <$> messageData p text).
  split.
  - subst w'. rewrite (submit_then_commit w autoId now Hacc).
    rewrite apply_sendBatch. apply lookup_insert_eq.
  - assert (Hid : toMessage
                    {| id := autoId; data := resolve now <$> messageData p text |}
                  !! js "id" = Some (VString autoId)).
    { unfold toMessage. simpl.
      rewrite lookup_union_r by apply stored_message_no_id.
      apply lookup_singleton_eq. }
    assert (Hsender : toMessage
                    {| id := autoId; data := resolve now <$> messageData p text |}
                  !! js "senderId" = Some (VString (uid (currentUser p)))).
    { unfold toMessage. simpl.
      apply lookup_union_Some_l, stored_message_senderId. }
    assert (Htext : toMessage
                    {| id := autoId; data := resolve now <$> messageData p text |}
                  !! js "text" = Some (VString text)).
    { unfold toMessage. simpl.
      apply lookup_union_Some_l, stored_message_text. }
    split.
    + unfold Composer.messageElement, Composer.isOwn, Message.Message.
      simpl. rewrite Hid, Hsender, Htext.
      unfold strict_eq. now rewrite bool_decide_eq_true_2.
    + intros Hother.
      unfold Composer.messageElement, Composer.isOwn, Message.Message.
      simpl. rewrite Hid, Hsender, Htext.
      unfold strict_eq. rewrite bool_decide_eq_false_2 by congruence.
      reflexivity.
Qed.

Lemma sent_message_shown_as_own_witness :
  accepted Scenario.typed /\
  exists stored,
    db (run Scenario.typed [Submit (js "m1"); Settle 0 (Committed 7)])
      !! autoDoc (messagesCollection (js "u1_u2")) (js "m1") = Some stored /\
    Message.children
      (snd (Composer.messageElement Scenario.u1_u2
              (toMessage {| id := js "m1"; data := stored |})))
      = Some (VString (js "hi")).
Proof.
  assert (Hacc : accepted Scenario.typed)
    by (split; [discriminate|reflexivity]).
  split; [exact Hacc|].
  destruct (sent_message_shown_as_own Scenario.typed (js "m1") 7%Z Hacc)
    as (stored & Hstored & Hown & _).
  exists stored. split; [exact Hstored|].
  simpl in Hown. rewrite Hown. reflexivity.
Defined.

(** X19. A committed send touches two documents and three fields: every
    document other than the conversation document and the new message
    document is as before, and so is every field of the conversation
    document other than [participants], [lastMessageText] and
    [lastMessageTimestamp]; these three hold the sender-first pair, the
    trimmed draft and the time of the commit, which is also the
    [createdAt] of the message. *)
Theorem committed_send_frame (w : World) (autoId : jsstring) (now : Z) :
  accepted w ->
  let p := props w in
  let text := trim (newMessage (state w)) in
  let chat := chatDoc (chatIdOf p) in
  let message := autoDoc (messagesCollection (chatIdOf p)) autoId in
  let w' := step (step w (Submit autoId))
                 (Settle (length (pending w)) (Committed now)) in
  (forall other, other <> chat -> other <> message ->
     db w' !! other = db w !! other) /\
  (forall field, field ∉ Composer.chatFields ->
     (db w' !! chat) ≫= (fun d => d !! field)
     = (db w !! chat) ≫= (fun d => d !! field)) /\
  (db w' !! chat) ≫= (fun d => d !! js "participants")
    = Some (VArray [uid (currentUser p); uid (chatPartner p)]) /\
  (db w' !! chat) ≫= (fun d => d !! js "lastMessageText")
    = Some (VString text) /\
  (db w' !! chat) ≫= (fun d => d !! js "lastMessageTimestamp")
    = Some (VTimestamp now) /\
  (db w' !! message) ≫= (fun d => d !! js "createdAt")
    = Some (VTimestamp now).
Proof.
  intros Hacc p text chat message w'.
  assert (Hdb : db w' =
    <[message := resolve now <$> messageData p text]>
      (<[chat := (resolve now <$> chatData p text)
                 ∪ default ∅ (db w !! chat)]> (db w))).
  { subst w'. rewrite (submit_then_commit w autoId now Hacc).
    apply apply_sendBatch. }
  assert (Hchat : db w' !! chat =
            Some ((resolve now <$> chatData p text)
                  ∪ default ∅ (db w !! chat))).
  { rewrite Hdb. rewrite lookup_insert_ne by apply message_is_not_chat.
    apply lookup_insert_eq. }
  split; [|split; [|repeat split]].
  - intros other Hchat' Hmessage. rewrite Hdb.
    now rewrite !lookup_insert_ne by congruence.
  - intros field Hfield. rewrite Hchat. simpl.
    rewrite lookup_union_r by now apply stored_chat_other_field.
    now destruct (db w !! chat).
  - rewrite Hchat. simpl. apply lookup_union_Some_l.
    rewrite resolve_chatData. apply lookup_insert_eq.
  - rewrite Hchat. simpl. apply lookup_union_Some_l.
    rewrite resolve_chatData.
    rewrite lookup_insert_ne by discriminate. apply lookup_insert_eq.
  - rewrite Hchat. simpl. apply lookup_union_Some_l.
    rewrite resolve_chatData.
    rewrite !lookup_insert_ne by discriminate. apply lookup_singleton_eq.
  - rewrite Hdb, lookup_insert_eq. simpl.
    rewrite resolve_messageData.
    rewrite !lookup_insert_ne by discriminate. apply lookup_singleton_eq.
Qed.

Lemma committed_send_frame_witness :
  accepted Scenario.typed /\
  (db (run Scenario.typed [Submit (js "m1"); Settle 0 (Committed 7)])
     !! chatDoc (js "u1_u2")) ≫= (fun d => d !! js "lastMessageText")
    = Some (VString (js "hi")).
Proof.
  assert (Hacc : accepted Scenario.typed)
    by (split; [discriminate|reflexivity]).
  split; [exact Hacc|].
  destruct (committed_send_frame Scenario.typed (js "m1") 7%Z Hacc)
    as (_ & _ & _ & Htext & _).
  exact Htext.
Defined.

Section BothSides.

(** The id of a pair does not depend on who is the current user. *)
Lemma chatIdOf_swapped (p : ChatViewProps) :
  chatIdOf (Composer.swapped p) = chatIdOf p.
Proof.
  unfold chatIdOf, Composer.swapped. simpl. rewrite !getChatId_cases.
  destruct (JsString.lt (uid (currentUser p)) (uid (chatPartner p))) eqn:H1.
  - now rewrite (lt_asym _ _ H1).
  - destruct (JsString.lt (uid (chatPartner p)) (uid (currentUser p)))
      eqn:H2; [reflexivity|].
    now rewrite (lt_total _ _ H1 H2).
Qed.

End BothSides.

(** X20. The two participants of a conversation work on the same
    documents: the component of either one listens to the same chat id,
    and a send of either one writes the same conversation document and
    adds to the same message collection; only the order of [participants]
    differs, the sender coming first. *)
Theorem both_sides_share_documents
  (p : ChatViewProps) (text autoId : jsstring) :
  let q := Composer.swapped p in
  chatIdOf q = chatIdOf p /\
  listeners (mount q ∅) = listeners (mount p ∅) /\
  w_ref <$> sendBatch q text autoId = w_ref <$> sendBatch p text autoId /\
  chatData q text !! js "participants"
    = Some (VArray [uid (chatPartner p); uid (currentUser p)]) /\
  chatData p text !! js "participants"
    = Some (VArray [uid (currentUser p); uid (chatPartner p)]).
Proof.
  intros q. pose proof (chatIdOf_swapped p) as Hid. fold q in Hid.
  repeat split.
  - exact Hid.
  - unfold mount. run_cmds. now rewrite Hid.
  - unfold sendBatch. simpl. now rewrite Hid.
Qed.

(** X21. A send in flight belongs to the conversation it was submitted
    in: whatever happens before its commit settles, a change of partner
    included, the commit writes the batch built at the submit, for the
    props of that moment. *)
Theorem send_in_flight_keeps_its_conversation
  (w : World) (autoId : jsstring) (interim : list event) (now : Z) :
  reachable w -> accepted w ->
  Forall (fun e => isSettle e = false) interim ->
  let w' := step (run (step w (Submit autoId)) interim)
                 (Settle 0 (Committed now)) in
  db w' =
    apply_batch now
      (sendBatch (props w) (trim (newMessage (state w))) autoId) (db w) /\
  pending w' = [].
Proof.
  intros Hreach Hacc Hquiet w'.
  destruct (in_flight w autoId interim Hreach Hacc Hquiet)
    as (_ & _ & Hdb & _ & _ & _ & Hpending).
  subst w'. rewrite (step_Settle_single _ _ _ Hpending).
  run_cmds. now rewrite Hdb.
Qed.

Lemma send_in_flight_keeps_its_conversation_witness :
  reachable Scenario.typed /\ accepted Scenario.typed /\
  db (run Scenario.typed
        [Submit (js "m1"); Render Scenario.u1_u3; Settle 0 (Committed 7)])
    = apply_batch 7 (sendBatch Scenario.u1_u2 (js "hi") (js "m1")) ∅.
Proof.
  assert (Hreach : reachable Scenario.typed).
  { exists Scenario.u1_u2, ∅, [Change (js " hi ")]. reflexivity. }
  assert (Hacc : accepted Scenario.typed)
    by (split; [discriminate|reflexivity]).
  assert (Hquiet : Forall (fun e => isSettle e = false)
                     [Render Scenario.u1_u3]).
  { constructor; [reflexivity|constructor]. }
  split; [exact Hreach|]. split; [exact Hacc|].
  destruct (send_in_flight_keeps_its_conversation Scenario.typed (js "m1")
              [Render Scenario.u1_u3] 7%Z Hreach Hacc Hquiet) as [Hdb _].
  exact Hdb.
Defined.

(** ** The image widget *)

Module ImageWidgetFacts.

Import ImageWidget.

Section Updates.

Variable d : gmap (list N) jsval.

(** The data after a removal: [src] is [null], there is no [storagePath],
    every other field is kept. *)
Lemma mergedData_removed (field : jsstring) :
  mergedData d {[ js "src" := JNull ]} !! js "src" = Some JNull /\
  mergedData d {[ js "src" := JNull ]} !! js "storagePath" = None /\
  (field <> js "src" -> field <> js "storagePath" ->
   mergedData d {[ js "src" := JNull ]} !! field = d !! field).
Proof.
  unfold mergedData. rewrite lookup_singleton_eq. repeat split.
  - rewrite lookup_delete_ne by discriminate.
    apply lookup_union_Some_l, lookup_singleton_eq.
  - apply lookup_delete_eq.
  - intros Hsrc Hpath. rewrite lookup_delete_ne by congruence.
    apply lookup_union_r. now apply lookup_singleton_ne.
Qed.

(** The data after an upload: [src] and [storagePath] are the new ones,
    every other field is kept. *)
Lemma mergedData_uploaded (url path field : jsstring) :
  let updates : gmap (list N) jsval :=
    {[ js "src" := JString url; js "storagePath" := JString path ]} in
  mergedData d updates !! js "src" = Some (JString url) /\
  mergedData d updates !! js "storagePath" = Some (JString path) /\
  (field <> js "src" -> field <> js "storagePath" ->
   mergedData d updates !! field = d !! field).
Proof.
  intros updates. unfold mergedData.
  assert (Hsrc : updates !! js "src" = Some (JString url))
    by apply lookup_insert_eq.
  rewrite Hsrc. repeat split.
  - now apply lookup_union_Some_l.
  - apply lookup_union_Some_l. subst updates.
    rewrite lookup_insert_ne by discriminate. apply lookup_singleton_eq.
  - intros Hs Hp. apply lookup_union_r. subst updates.
    rewrite lookup_insert_ne by congruence.
    now apply lookup_singleton_ne.
Qed.

End Updates.

(** X22. Removing the image updates the data only once the file is gone:
    when the data names a stored file, a failed deletion changes nothing at
    all (no update, the image stays), and a successful one removes the file
    and then reports data with [src] null, no [storagePath] and every other
    field as before; when the data names no file, no storage call is made
    and the data is updated at once. *)
Theorem removeImage_updates_after_deletion
  (p : ImageWidgetProps) (o : Outcomes) (w : World) :
  let cleared := mergedData (data p) {[ js "src" := JNull ]} in
  (truthyField (data p !! js "storagePath") = false ->
   storage (removeImage p o w) = storage w /\
   updateCalls (removeImage p o w) = updateCalls w ++ [cleared]) /\
  (forall path,
     data p !! js "storagePath" = Some (JString path) -> path <> [] ->
     (deleteOk o = false -> removeImage p o w = w) /\
     (deleteOk o = true ->
      storage (removeImage p o w) = delete path (storage w) /\
      storage (removeImage p o w) !! path = None /\
      updateCalls (removeImage p o w) = updateCalls w ++ [cleared])) /\
  cleared !! js "src" = Some JNull /\
  cleared !! js "storagePath" = None /\
  (forall field, field <> js "src" -> field <> js "storagePath" ->
     cleared !! field = data p !! field).
Proof.
  intros cleared. split; [|split].
  - intros Hnone. unfold removeImage. rewrite Hnone. simpl. now split.
  - intros path Hpath Hnonempty.
    assert (Htruthy : truthyField (data p !! js "storagePath") = true).
    { rewrite Hpath. simpl. now destruct path. }
    unfold removeImage. rewrite Htruthy, Hpath. simpl.
    split; intros ->; [reflexivity|].
    unfold seq, deleteObject, handleUpdate. simpl.
    repeat split. apply lookup_delete_eq.
  - destruct (mergedData_removed (data p) []) as (Hsrc & Hpath & _).
    split; [exact Hsrc|]. split; [exact Hpath|].
    intros field. apply mergedData_removed.
Qed.

Lemma removeImage_updates_after_deletion_witness :
  data ImageScenario.editable !! js "storagePath"
    = Some (JString (js "images/old")) /\
  removeImage ImageScenario.editable ImageScenario.deleteFails
    ImageScenario.idle = ImageScenario.idle /\
  storage (removeImage ImageScenario.editable ImageScenario.allFine
             ImageScenario.idle) !! js "images/old" = None.
Proof.
  assert (Hpath : data ImageScenario.editable !! js "storagePath"
                  = Some (JString (js "images/old"))) by reflexivity.
  assert (Hne : js "images/old" <> []) by discriminate.
  split; [exact Hpath|].
  split.
  - destruct (removeImage_updates_after_deletion ImageScenario.editable
                ImageScenario.deleteFails ImageScenario.idle)
      as (_ & Hstored & _).
    destruct (Hstored (js "images/old") Hpath Hne) as [Hfail _].
    apply Hfail. reflexivity.
  - destruct (removeImage_updates_after_deletion ImageScenario.editable
                ImageScenario.allFine ImageScenario.idle)
      as (_ & Hstored & _).
    destruct (Hstored (js "images/old") Hpath Hne) as [_ Hok].
    destruct (Hok eq_refl) as (_ & Hgone & _). exact Hgone.
Defined.

(** X23. A widget that is not editable offers no way to change the image:
    a file chosen in its input is not uploaded (the input is only
    cleared), the upload button is disabled and does not open the file
    dialog, the file input is disabled, and the image is shown without a
    remove button. *)
Theorem read_only_widget_changes_nothing
  (p : ImageWidgetProps) (file : option File) (uuid : jsstring)
  (o : Outcomes) (uploading : bool) (w : World) :
  isEditable p = false ->
  handleFileChange p file uuid o w = clearInput w /\
  triggerFileInput p w = w /\
  inputDisabled p uploading = true /\
  render p uploading <> UploadButton false /\
  (forall src alt, render p uploading <> Image src alt true).
Proof.
  intros Hread. unfold handleFileChange, triggerFileInput, inputDisabled,
    render, seq. rewrite Hread. simpl.
  repeat split.
  - now destruct file.
  - destruct uploading; [discriminate|].
    destruct (truthyField _); discriminate.
  - intros src alt. destruct uploading; [discriminate|].
    destruct (truthyField _); congruence.
Qed.

Lemma read_only_widget_changes_nothing_witness :
  isEditable ImageScenario.readOnly = false /\
  handleFileChange ImageScenario.readOnly (Some ImageScenario.newFile)
    (js "id1") ImageScenario.allFine ImageScenario.idle
    = clearInput ImageScenario.idle.
Proof.
  assert (Hread : isEditable ImageScenario.readOnly = false) by reflexivity.
  split; [exact Hread|].
  destruct (read_only_widget_changes_nothing ImageScenario.readOnly
              (Some ImageScenario.newFile) (js "id1") ImageScenario.allFine
              false ImageScenario.idle Hread) as [Hignored _].
  exact Hignored.
Defined.

(** X24. An upload that goes through: the file is in the bucket under
    [images/<uuid>-<name>], the data is updated exactly once, with [src] the
    download URL, [storagePath] that path and every other field as before,
    the flag [isUploading] is back to false and the input is cleared;
    whether the old file could be deleted makes no difference to this. *)
Theorem upload_success
  (p : ImageWidgetProps) (f : File) (uuid url : jsstring)
  (o : Outcomes) (w : World) :
  isEditable p = true ->
  uploadOk o = true ->
  downloadURL o = Some url ->
  let path := newStoragePath uuid f in
  let w' := handleFileChange p (Some f) uuid o w in
  exists newData,
    updateCalls w' = updateCalls w ++ [newData] /\
    newData !! js "src" = Some (JString url) /\
    newData !! js "storagePath" = Some (JString path) /\
    (forall field, field <> js "src" -> field <> js "storagePath" ->
       newData !! field = data p !! field) /\
    storage w' !! path = Some f /\
    isUploading w' = false /\
    inputCleared w' = S (inputCleared w).
Proof.
  intros Hedit Hup Hurl path w'.
  exists (mergedData (data p)
            {[ js "src" := JString url; js "storagePath" := JString path ]}).
  destruct (mergedData_uploaded (data p) url path []) as (Hsrc & Hpath & _).
  subst w'. unfold handleFileChange, uploadRest, uploadStarted, seq.
  rewrite Hedit, Hup, Hurl.
  split; [|split; [exact Hsrc|split; [exact Hpath|split]]].
  - destruct (data p !! js "storagePath") as [[|old]|];
      try destruct (truthy old && deleteOk o); reflexivity.
  - intros field. apply mergedData_uploaded.
  - destruct (data p !! js "storagePath") as [[|old]|];
      try destruct (truthy old && deleteOk o);
      (repeat split; simpl; apply lookup_insert_eq).
Qed.

Lemma upload_success_witness :
  isEditable ImageScenario.editable = true /\
  storage (handleFileChange ImageScenario.editable
             (Some ImageScenario.newFile) (js "id1") ImageScenario.allFine
             ImageScenario.idle)
    !! js "images/id1-new.png" = Some ImageScenario.newFile.
Proof.
  assert (Hedit : isEditable ImageScenario.editable = true) by reflexivity.
  split; [exact Hedit|].
  destruct (upload_success ImageScenario.editable ImageScenario.newFile
              (js "id1") (js "https://cdn/new") ImageScenario.allFine
              ImageScenario.idle Hedit eq_refl eq_refl)
    as (newData & _ & _ & _ & _ & Hstored & _).
  exact Hstored.
Defined.

(** X25. An upload that fails reports nothing and clears the flag, yet it
    is not without effect: the old file was deleted before the upload was
    tried, so when that deletion succeeded the data still names a file the
    bucket no longer holds; and when the upload succeeded but the download
    URL could not be obtained, the new file stays in the bucket without
    anything naming it. *)
Theorem upload_failure
  (p : ImageWidgetProps) (f : File) (uuid : jsstring)
  (o : Outcomes) (w : World) :
  isEditable p = true ->
  uploadOk o = false \/ downloadURL o = None ->
  let path := newStoragePath uuid f in
  let w' := handleFileChange p (Some f) uuid o w in
  updateCalls w' = updateCalls w /\
  isUploading w' = false /\
  inputCleared w' = S (inputCleared w) /\
  (forall old,
     data p !! js "storagePath" = Some (JString old) -> old <> [] ->
     deleteOk o = true -> uploadOk o = false ->
     storage w' !! old = None) /\
  (uploadOk o = true -> storage w' !! path = Some f).
Proof.
  intros Hedit Hfail path w'.
  subst w'. unfold handleFileChange, uploadRest, uploadStarted, seq.
  rewrite Hedit.
  split; [|split; [|split; [|split]]].
  - destruct (data p !! js "storagePath") as [[|old]|];
      try destruct (truthy old && deleteOk o);
      (destruct Hfail as [->| ->]; [reflexivity|now destruct (uploadOk o)]).
  - destruct (data p !! js "storagePath") as [[|old]|];
      try destruct (truthy old && deleteOk o);
      destruct (uploadOk o); try destruct (downloadURL o); reflexivity.
  - destruct (data p !! js "storagePath") as [[|old]|];
      try destruct (truthy old && deleteOk o);
      destruct (uploadOk o); try destruct (downloadURL o); reflexivity.
  - intros old Hold Hnonempty Hdel Hup. rewrite Hold, Hdel, Hup.
    assert (Htruthy : truthy old = true) by now destruct old.
    rewrite Htruthy. simpl. apply lookup_delete_eq.
  - intros Hup. rewrite Hup.
    destruct Hfail as [Hno|Hno]; [congruence|]. rewrite Hno.
    destruct (data p !! js "storagePath") as [[|old]|];
      try destruct (truthy old && deleteOk o);
      simpl; apply lookup_insert_eq.
Qed.

Lemma upload_failure_witness :
  isEditable ImageScenario.editable = true /\
  data ImageScenario.editable !! js "storagePath"
    = Some (JString (js "images/old")) /\
  storage (handleFileChange ImageScenario.editable
             (Some ImageScenario.newFile) (js "id1")
             ImageScenario.uploadFails ImageScenario.idle)
    !! js "images/old" = None /\
  updateCalls (handleFileChange ImageScenario.editable
                 (Some ImageScenario.newFile) (js "id1")
                 ImageScenario.uploadFails ImageScenario.idle) = [].
Proof.
  assert (Hedit : isEditable ImageScenario.editable = true) by reflexivity.
  assert (Hpath : data ImageScenario.editable !! js "storagePath"
                  = Some (JString (js "images/old"))) by reflexivity.
  assert (Hne : js "images/old" <> []) by discriminate.
  split; [exact Hedit|]. split; [exact Hpath|].
  destruct (upload_failure ImageScenario.editable ImageScenario.newFile
              (js "id1") ImageScenario.uploadFails ImageScenario.idle
              Hedit (or_introl eq_refl))
    as (Hcalls & _ & _ & Hdangling & _).
  split.
  - exact (Hdangling (js "images/old") Hpath Hne eq_refl eq_refl).
  - exact Hcalls.
Defined.

End ImageWidgetFacts.
